(** * A shallow embedding of [generate.py] (markov-chain)

    A character is modelled by its Unicode code point, a [Z], and a Python
    [str] by the list of its code points.  The training file is read in text
    mode, so what [file.read()] returns is the decoded text after the
    translation of line ends ([read_text]); the decoded text itself is the
    input of the model.  A Python [int] count is a [nat].  A Python [float]
    is an IEEE 754 binary64 value ([float]), with round-half-even rounding,
    subnormals and overflow to infinity; the sign of zero is not modelled.
    A Python [dict] is an association list in insertion order, which is the
    iteration order of Python dictionaries.  An exception escaping a
    function is a value of the type [py_error]. *)

From Stdlib Require Import List String Ascii ZArith QArith Qabs Qpower Qminmax Lqa Lia Bool.
Set Warnings "-register-all".
Import ListNotations.
Open Scope list_scope.
Open Scope Z_scope.

(** ** Exceptions and the error monad *)

Inductive py_error : Type :=
| TypeError
| StopIteration
| KeyError
| IndexError
| ValueError.

Inductive result (A : Type) : Type :=
| Ok : A -> result A
| Err : py_error -> result A.
Arguments Ok {A} _.
Arguments Err {A} _.

Definition bind {A B} (m : result A) (f : A -> result B) : result B :=
  match m with
  | Ok a => f a
  | Err e => Err e
  end.

Notation "x <- m ;; k" := (bind m (fun x => k))
  (at level 61, m at next level, right associativity).

(** ** Characters and strings *)

(** [==] on two [str]s. *)
Fixpoint str_eqb (s t : list Z) : bool :=
  match s, t with
  | [], [] => true
  | a :: s', b :: t' => Z.eqb a b && str_eqb s' t'
  | _, _ => false
  end.

(** The code points of an ASCII string literal. *)
Definition of_ascii (s : string) : list Z :=
  map (fun a => Z.of_nat (nat_of_ascii a)) (list_ascii_of_string s).

(** [c in l] *)
Fixpoint mem (c : Z) (l : list Z) : bool :=
  match l with
  | [] => false
  | d :: r => Z.eqb c d || mem c r
  end.

(** ** [str.lower] on one character *)

(** Every code point [c] whose [chr(c).lower()] is one character other
    than [chr(c)], with that character; computed with CPython 3.11
    ([unicodedata.unidata_version] 14.0.0) over all code points. *)
Definition lower_table : list (Z * Z) := [
  (65, 97); (66, 98); (67, 99); (68, 100); (69, 101); (70, 102); (71, 103); (72, 104);
  (73, 105); (74, 106); (75, 107); (76, 108); (77, 109); (78, 110); (79, 111); (80, 112);
  (81, 113); (82, 114); (83, 115); (84, 116); (85, 117); (86, 118); (87, 119); (88, 120);
  (89, 121); (90, 122); (192, 224); (193, 225); (194, 226); (195, 227); (196, 228); (197, 229);
  (198, 230); (199, 231); (200, 232); (201, 233); (202, 234); (203, 235); (204, 236); (205, 237);
  (206, 238); (207, 239); (208, 240); (209, 241); (210, 242); (211, 243); (212, 244); (213, 245);
  (214, 246); (216, 248); (217, 249); (218, 250); (219, 251); (220, 252); (221, 253); (222, 254);
  (256, 257); (258, 259); (260, 261); (262, 263); (264, 265); (266, 267); (268, 269); (270, 271);
  (272, 273); (274, 275); (276, 277); (278, 279); (280, 281); (282, 283); (284, 285); (286, 287);
  (288, 289); (290, 291); (292, 293); (294, 295); (296, 297); (298, 299); (300, 301); (302, 303);
  (306, 307); (308, 309); (310, 311); (313, 314); (315, 316); (317, 318); (319, 320); (321, 322);
  (323, 324); (325, 326); (327, 328); (330, 331); (332, 333); (334, 335); (336, 337); (338, 339);
  (340, 341); (342, 343); (344, 345); (346, 347); (348, 349); (350, 351); (352, 353); (354, 355);
  (356, 357); (358, 359); (360, 361); (362, 363); (364, 365); (366, 367); (368, 369); (370, 371);
  (372, 373); (374, 375); (376, 255); (377, 378); (379, 380); (381, 382); (385, 595); (386, 387);
  (388, 389); (390, 596); (391, 392); (393, 598); (394, 599); (395, 396); (398, 477); (399, 601);
  (400, 603); (401, 402); (403, 608); (404, 611); (406, 617); (407, 616); (408, 409); (412, 623);
  (413, 626); (415, 629); (416, 417); (418, 419); (420, 421); (422, 640); (423, 424); (425, 643);
  (428, 429); (430, 648); (431, 432); (433, 650); (434, 651); (435, 436); (437, 438); (439, 658);
  (440, 441); (444, 445); (452, 454); (453, 454); (455, 457); (456, 457); (458, 460); (459, 460);
  (461, 462); (463, 464); (465, 466); (467, 468); (469, 470); (471, 472); (473, 474); (475, 476);
  (478, 479); (480, 481); (482, 483); (484, 485); (486, 487); (488, 489); (490, 491); (492, 493);
  (494, 495); (497, 499); (498, 499); (500, 501); (502, 405); (503, 447); (504, 505); (506, 507);
  (508, 509); (510, 511); (512, 513); (514, 515); (516, 517); (518, 519); (520, 521); (522, 523);
  (524, 525); (526, 527); (528, 529); (530, 531); (532, 533); (534, 535); (536, 537); (538, 539);
  (540, 541); (542, 543); (544, 414); (546, 547); (548, 549); (550, 551); (552, 553); (554, 555);
  (556, 557); (558, 559); (560, 561); (562, 563); (570, 11365); (571, 572); (573, 410); (574, 11366);
  (577, 578); (579, 384); (580, 649); (581, 652); (582, 583); (584, 585); (586, 587); (588, 589);
  (590, 591); (880, 881); (882, 883); (886, 887); (895, 1011); (902, 940); (904, 941); (905, 942);
  (906, 943); (908, 972); (910, 973); (911, 974); (913, 945); (914, 946); (915, 947); (916, 948);
  (917, 949); (918, 950); (919, 951); (920, 952); (921, 953); (922, 954); (923, 955); (924, 956);
  (925, 957); (926, 958); (927, 959); (928, 960); (929, 961); (931, 963); (932, 964); (933, 965);
  (934, 966); (935, 967); (936, 968); (937, 969); (938, 970); (939, 971); (975, 983); (984, 985);
  (986, 987); (988, 989); (990, 991); (992, 993); (994, 995); (996, 997); (998, 999); (1000, 1001);
  (1002, 1003); (1004, 1005); (1006, 1007); (1012, 952); (1015, 1016); (1017, 1010); (1018, 1019); (1021, 891);
  (1022, 892); (1023, 893); (1024, 1104); (1025, 1105); (1026, 1106); (1027, 1107); (1028, 1108); (1029, 1109);
  (1030, 1110); (1031, 1111); (1032, 1112); (1033, 1113); (1034, 1114); (1035, 1115); (1036, 1116); (1037, 1117);
  (1038, 1118); (1039, 1119); (1040, 1072); (1041, 1073); (1042, 1074); (1043, 1075); (1044, 1076); (1045, 1077);
  (1046, 1078); (1047, 1079); (1048, 1080); (1049, 1081); (1050, 1082); (1051, 1083); (1052, 1084); (1053, 1085);
  (1054, 1086); (1055, 1087); (1056, 1088); (1057, 1089); (1058, 1090); (1059, 1091); (1060, 1092); (1061, 1093);
  (1062, 1094); (1063, 1095); (1064, 1096); (1065, 1097); (1066, 1098); (1067, 1099); (1068, 1100); (1069, 1101);
  (1070, 1102); (1071, 1103); (1120, 1121); (1122, 1123); (1124, 1125); (1126, 1127); (1128, 1129); (1130, 1131);
  (1132, 1133); (1134, 1135); (1136, 1137); (1138, 1139); (1140, 1141); (1142, 1143); (1144, 1145); (1146, 1147);
  (1148, 1149); (1150, 1151); (1152, 1153); (1162, 1163); (1164, 1165); (1166, 1167); (1168, 1169); (1170, 1171);
  (1172, 1173); (1174, 1175); (1176, 1177); (1178, 1179); (1180, 1181); (1182, 1183); (1184, 1185); (1186, 1187);
  (1188, 1189); (1190, 1191); (1192, 1193); (1194, 1195); (1196, 1197); (1198, 1199); (1200, 1201); (1202, 1203);
  (1204, 1205); (1206, 1207); (1208, 1209); (1210, 1211); (1212, 1213); (1214, 1215); (1216, 1231); (1217, 1218);
  (1219, 1220); (1221, 1222); (1223, 1224); (1225, 1226); (1227, 1228); (1229, 1230); (1232, 1233); (1234, 1235);
  (1236, 1237); (1238, 1239); (1240, 1241); (1242, 1243); (1244, 1245); (1246, 1247); (1248, 1249); (1250, 1251);
  (1252, 1253); (1254, 1255); (1256, 1257); (1258, 1259); (1260, 1261); (1262, 1263); (1264, 1265); (1266, 1267);
  (1268, 1269); (1270, 1271); (1272, 1273); (1274, 1275); (1276, 1277); (1278, 1279); (1280, 1281); (1282, 1283);
  (1284, 1285); (1286, 1287); (1288, 1289); (1290, 1291); (1292, 1293); (1294, 1295); (1296, 1297); (1298, 1299);
  (1300, 1301); (1302, 1303); (1304, 1305); (1306, 1307); (1308, 1309); (1310, 1311); (1312, 1313); (1314, 1315);
  (1316, 1317); (1318, 1319); (1320, 1321); (1322, 1323); (1324, 1325); (1326, 1327); (1329, 1377); (1330, 1378);
  (1331, 1379); (1332, 1380); (1333, 1381); (1334, 1382); (1335, 1383); (1336, 1384); (1337, 1385); (1338, 1386);
  (1339, 1387); (1340, 1388); (1341, 1389); (1342, 1390); (1343, 1391); (1344, 1392); (1345, 1393); (1346, 1394);
  (1347, 1395); (1348, 1396); (1349, 1397); (1350, 1398); (1351, 1399); (1352, 1400); (1353, 1401); (1354, 1402);
  (1355, 1403); (1356, 1404); (1357, 1405); (1358, 1406); (1359, 1407); (1360, 1408); (1361, 1409); (1362, 1410);
  (1363, 1411); (1364, 1412); (1365, 1413); (1366, 1414); (4256, 11520); (4257, 11521); (4258, 11522); (4259, 11523);
  (4260, 11524); (4261, 11525); (4262, 11526); (4263, 11527); (4264, 11528); (4265, 11529); (4266, 11530); (4267, 11531);
  (4268, 11532); (4269, 11533); (4270, 11534); (4271, 11535); (4272, 11536); (4273, 11537); (4274, 11538); (4275, 11539);
  (4276, 11540); (4277, 11541); (4278, 11542); (4279, 11543); (4280, 11544); (4281, 11545); (4282, 11546); (4283, 11547);
  (4284, 11548); (4285, 11549); (4286, 11550); (4287, 11551); (4288, 11552); (4289, 11553); (4290, 11554); (4291, 11555);
  (4292, 11556); (4293, 11557); (4295, 11559); (4301, 11565); (5024, 43888); (5025, 43889); (5026, 43890); (5027, 43891);
  (5028, 43892); (5029, 43893); (5030, 43894); (5031, 43895); (5032, 43896); (5033, 43897); (5034, 43898); (5035, 43899);
  (5036, 43900); (5037, 43901); (5038, 43902); (5039, 43903); (5040, 43904); (5041, 43905); (5042, 43906); (5043, 43907);
  (5044, 43908); (5045, 43909); (5046, 43910); (5047, 43911); (5048, 43912); (5049, 43913); (5050, 43914); (5051, 43915);
  (5052, 43916); (5053, 43917); (5054, 43918); (5055, 43919); (5056, 43920); (5057, 43921); (5058, 43922); (5059, 43923);
  (5060, 43924); (5061, 43925); (5062, 43926); (5063, 43927); (5064, 43928); (5065, 43929); (5066, 43930); (5067, 43931);
  (5068, 43932); (5069, 43933); (5070, 43934); (5071, 43935); (5072, 43936); (5073, 43937); (5074, 43938); (5075, 43939);
  (5076, 43940); (5077, 43941); (5078, 43942); (5079, 43943); (5080, 43944); (5081, 43945); (5082, 43946); (5083, 43947);
  (5084, 43948); (5085, 43949); (5086, 43950); (5087, 43951); (5088, 43952); (5089, 43953); (5090, 43954); (5091, 43955);
  (5092, 43956); (5093, 43957); (5094, 43958); (5095, 43959); (5096, 43960); (5097, 43961); (5098, 43962); (5099, 43963);
  (5100, 43964); (5101, 43965); (5102, 43966); (5103, 43967); (5104, 5112); (5105, 5113); (5106, 5114); (5107, 5115);
  (5108, 5116); (5109, 5117); (7312, 4304); (7313, 4305); (7314, 4306); (7315, 4307); (7316, 4308); (7317, 4309);
  (7318, 4310); (7319, 4311); (7320, 4312); (7321, 4313); (7322, 4314); (7323, 4315); (7324, 4316); (7325, 4317);
  (7326, 4318); (7327, 4319); (7328, 4320); (7329, 4321); (7330, 4322); (7331, 4323); (7332, 4324); (7333, 4325);
  (7334, 4326); (7335, 4327); (7336, 4328); (7337, 4329); (7338, 4330); (7339, 4331); (7340, 4332); (7341, 4333);
  (7342, 4334); (7343, 4335); (7344, 4336); (7345, 4337); (7346, 4338); (7347, 4339); (7348, 4340); (7349, 4341);
  (7350, 4342); (7351, 4343); (7352, 4344); (7353, 4345); (7354, 4346); (7357, 4349); (7358, 4350); (7359, 4351);
  (7680, 7681); (7682, 7683); (7684, 7685); (7686, 7687); (7688, 7689); (7690, 7691); (7692, 7693); (7694, 7695);
  (7696, 7697); (7698, 7699); (7700, 7701); (7702, 7703); (7704, 7705); (7706, 7707); (7708, 7709); (7710, 7711);
  (7712, 7713); (7714, 7715); (7716, 7717); (7718, 7719); (7720, 7721); (7722, 7723); (7724, 7725); (7726, 7727);
  (7728, 7729); (7730, 7731); (7732, 7733); (7734, 7735); (7736, 7737); (7738, 7739); (7740, 7741); (7742, 7743);
  (7744, 7745); (7746, 7747); (7748, 7749); (7750, 7751); (7752, 7753); (7754, 7755); (7756, 7757); (7758, 7759);
  (7760, 7761); (7762, 7763); (7764, 7765); (7766, 7767); (7768, 7769); (7770, 7771); (7772, 7773); (7774, 7775);
  (7776, 7777); (7778, 7779); (7780, 7781); (7782, 7783); (7784, 7785); (7786, 7787); (7788, 7789); (7790, 7791);
  (7792, 7793); (7794, 7795); (7796, 7797); (7798, 7799); (7800, 7801); (7802, 7803); (7804, 7805); (7806, 7807);
  (7808, 7809); (7810, 7811); (7812, 7813); (7814, 7815); (7816, 7817); (7818, 7819); (7820, 7821); (7822, 7823);
  (7824, 7825); (7826, 7827); (7828, 7829); (7838, 223); (7840, 7841); (7842, 7843); (7844, 7845); (7846, 7847);
  (7848, 7849); (7850, 7851); (7852, 7853); (7854, 7855); (7856, 7857); (7858, 7859); (7860, 7861); (7862, 7863);
  (7864, 7865); (7866, 7867); (7868, 7869); (7870, 7871); (7872, 7873); (7874, 7875); (7876, 7877); (7878, 7879);
  (7880, 7881); (7882, 7883); (7884, 7885); (7886, 7887); (7888, 7889); (7890, 7891); (7892, 7893); (7894, 7895);
  (7896, 7897); (7898, 7899); (7900, 7901); (7902, 7903); (7904, 7905); (7906, 7907); (7908, 7909); (7910, 7911);
  (7912, 7913); (7914, 7915); (7916, 7917); (7918, 7919); (7920, 7921); (7922, 7923); (7924, 7925); (7926, 7927);
  (7928, 7929); (7930, 7931); (7932, 7933); (7934, 7935); (7944, 7936); (7945, 7937); (7946, 7938); (7947, 7939);
  (7948, 7940); (7949, 7941); (7950, 7942); (7951, 7943); (7960, 7952); (7961, 7953); (7962, 7954); (7963, 7955);
  (7964, 7956); (7965, 7957); (7976, 7968); (7977, 7969); (7978, 7970); (7979, 7971); (7980, 7972); (7981, 7973);
  (7982, 7974); (7983, 7975); (7992, 7984); (7993, 7985); (7994, 7986); (7995, 7987); (7996, 7988); (7997, 7989);
  (7998, 7990); (7999, 7991); (8008, 8000); (8009, 8001); (8010, 8002); (8011, 8003); (8012, 8004); (8013, 8005);
  (8025, 8017); (8027, 8019); (8029, 8021); (8031, 8023); (8040, 8032); (8041, 8033); (8042, 8034); (8043, 8035);
  (8044, 8036); (8045, 8037); (8046, 8038); (8047, 8039); (8072, 8064); (8073, 8065); (8074, 8066); (8075, 8067);
  (8076, 8068); (8077, 8069); (8078, 8070); (8079, 8071); (8088, 8080); (8089, 8081); (8090, 8082); (8091, 8083);
  (8092, 8084); (8093, 8085); (8094, 8086); (8095, 8087); (8104, 8096); (8105, 8097); (8106, 8098); (8107, 8099);
  (8108, 8100); (8109, 8101); (8110, 8102); (8111, 8103); (8120, 8112); (8121, 8113); (8122, 8048); (8123, 8049);
  (8124, 8115); (8136, 8050); (8137, 8051); (8138, 8052); (8139, 8053); (8140, 8131); (8152, 8144); (8153, 8145);
  (8154, 8054); (8155, 8055); (8168, 8160); (8169, 8161); (8170, 8058); (8171, 8059); (8172, 8165); (8184, 8056);
  (8185, 8057); (8186, 8060); (8187, 8061); (8188, 8179); (8486, 969); (8490, 107); (8491, 229); (8498, 8526);
  (8544, 8560); (8545, 8561); (8546, 8562); (8547, 8563); (8548, 8564); (8549, 8565); (8550, 8566); (8551, 8567);
  (8552, 8568); (8553, 8569); (8554, 8570); (8555, 8571); (8556, 8572); (8557, 8573); (8558, 8574); (8559, 8575);
  (8579, 8580); (9398, 9424); (9399, 9425); (9400, 9426); (9401, 9427); (9402, 9428); (9403, 9429); (9404, 9430);
  (9405, 9431); (9406, 9432); (9407, 9433); (9408, 9434); (9409, 9435); (9410, 9436); (9411, 9437); (9412, 9438);
  (9413, 9439); (9414, 9440); (9415, 9441); (9416, 9442); (9417, 9443); (9418, 9444); (9419, 9445); (9420, 9446);
  (9421, 9447); (9422, 9448); (9423, 9449); (11264, 11312); (11265, 11313); (11266, 11314); (11267, 11315); (11268, 11316);
  (11269, 11317); (11270, 11318); (11271, 11319); (11272, 11320); (11273, 11321); (11274, 11322); (11275, 11323); (11276, 11324);
  (11277, 11325); (11278, 11326); (11279, 11327); (11280, 11328); (11281, 11329); (11282, 11330); (11283, 11331); (11284, 11332);
  (11285, 11333); (11286, 11334); (11287, 11335); (11288, 11336); (11289, 11337); (11290, 11338); (11291, 11339); (11292, 11340);
  (11293, 11341); (11294, 11342); (11295, 11343); (11296, 11344); (11297, 11345); (11298, 11346); (11299, 11347); (11300, 11348);
  (11301, 11349); (11302, 11350); (11303, 11351); (11304, 11352); (11305, 11353); (11306, 11354); (11307, 11355); (11308, 11356);
  (11309, 11357); (11310, 11358); (11311, 11359); (11360, 11361); (11362, 619); (11363, 7549); (11364, 637); (11367, 11368);
  (11369, 11370); (11371, 11372); (11373, 593); (11374, 625); (11375, 592); (11376, 594); (11378, 11379); (11381, 11382);
  (11390, 575); (11391, 576); (11392, 11393); (11394, 11395); (11396, 11397); (11398, 11399); (11400, 11401); (11402, 11403);
  (11404, 11405); (11406, 11407); (11408, 11409); (11410, 11411); (11412, 11413); (11414, 11415); (11416, 11417); (11418, 11419);
  (11420, 11421); (11422, 11423); (11424, 11425); (11426, 11427); (11428, 11429); (11430, 11431); (11432, 11433); (11434, 11435);
  (11436, 11437); (11438, 11439); (11440, 11441); (11442, 11443); (11444, 11445); (11446, 11447); (11448, 11449); (11450, 11451);
  (11452, 11453); (11454, 11455); (11456, 11457); (11458, 11459); (11460, 11461); (11462, 11463); (11464, 11465); (11466, 11467);
  (11468, 11469); (11470, 11471); (11472, 11473); (11474, 11475); (11476, 11477); (11478, 11479); (11480, 11481); (11482, 11483);
  (11484, 11485); (11486, 11487); (11488, 11489); (11490, 11491); (11499, 11500); (11501, 11502); (11506, 11507); (42560, 42561);
  (42562, 42563); (42564, 42565); (42566, 42567); (42568, 42569); (42570, 42571); (42572, 42573); (42574, 42575); (42576, 42577);
  (42578, 42579); (42580, 42581); (42582, 42583); (42584, 42585); (42586, 42587); (42588, 42589); (42590, 42591); (42592, 42593);
  (42594, 42595); (42596, 42597); (42598, 42599); (42600, 42601); (42602, 42603); (42604, 42605); (42624, 42625); (42626, 42627);
  (42628, 42629); (42630, 42631); (42632, 42633); (42634, 42635); (42636, 42637); (42638, 42639); (42640, 42641); (42642, 42643);
  (42644, 42645); (42646, 42647); (42648, 42649); (42650, 42651); (42786, 42787); (42788, 42789); (42790, 42791); (42792, 42793);
  (42794, 42795); (42796, 42797); (42798, 42799); (42802, 42803); (42804, 42805); (42806, 42807); (42808, 42809); (42810, 42811);
  (42812, 42813); (42814, 42815); (42816, 42817); (42818, 42819); (42820, 42821); (42822, 42823); (42824, 42825); (42826, 42827);
  (42828, 42829); (42830, 42831); (42832, 42833); (42834, 42835); (42836, 42837); (42838, 42839); (42840, 42841); (42842, 42843);
  (42844, 42845); (42846, 42847); (42848, 42849); (42850, 42851); (42852, 42853); (42854, 42855); (42856, 42857); (42858, 42859);
  (42860, 42861); (42862, 42863); (42873, 42874); (42875, 42876); (42877, 7545); (42878, 42879); (42880, 42881); (42882, 42883);
  (42884, 42885); (42886, 42887); (42891, 42892); (42893, 613); (42896, 42897); (42898, 42899); (42902, 42903); (42904, 42905);
  (42906, 42907); (42908, 42909); (42910, 42911); (42912, 42913); (42914, 42915); (42916, 42917); (42918, 42919); (42920, 42921);
  (42922, 614); (42923, 604); (42924, 609); (42925, 620); (42926, 618); (42928, 670); (42929, 647); (42930, 669);
  (42931, 43859); (42932, 42933); (42934, 42935); (42936, 42937); (42938, 42939); (42940, 42941); (42942, 42943); (42944, 42945);
  (42946, 42947); (42948, 42900); (42949, 642); (42950, 7566); (42951, 42952); (42953, 42954); (42960, 42961); (42966, 42967);
  (42968, 42969); (42997, 42998); (65313, 65345); (65314, 65346); (65315, 65347); (65316, 65348); (65317, 65349); (65318, 65350);
  (65319, 65351); (65320, 65352); (65321, 65353); (65322, 65354); (65323, 65355); (65324, 65356); (65325, 65357); (65326, 65358);
  (65327, 65359); (65328, 65360); (65329, 65361); (65330, 65362); (65331, 65363); (65332, 65364); (65333, 65365); (65334, 65366);
  (65335, 65367); (65336, 65368); (65337, 65369); (65338, 65370); (66560, 66600); (66561, 66601); (66562, 66602); (66563, 66603);
  (66564, 66604); (66565, 66605); (66566, 66606); (66567, 66607); (66568, 66608); (66569, 66609); (66570, 66610); (66571, 66611);
  (66572, 66612); (66573, 66613); (66574, 66614); (66575, 66615); (66576, 66616); (66577, 66617); (66578, 66618); (66579, 66619);
  (66580, 66620); (66581, 66621); (66582, 66622); (66583, 66623); (66584, 66624); (66585, 66625); (66586, 66626); (66587, 66627);
  (66588, 66628); (66589, 66629); (66590, 66630); (66591, 66631); (66592, 66632); (66593, 66633); (66594, 66634); (66595, 66635);
  (66596, 66636); (66597, 66637); (66598, 66638); (66599, 66639); (66736, 66776); (66737, 66777); (66738, 66778); (66739, 66779);
  (66740, 66780); (66741, 66781); (66742, 66782); (66743, 66783); (66744, 66784); (66745, 66785); (66746, 66786); (66747, 66787);
  (66748, 66788); (66749, 66789); (66750, 66790); (66751, 66791); (66752, 66792); (66753, 66793); (66754, 66794); (66755, 66795);
  (66756, 66796); (66757, 66797); (66758, 66798); (66759, 66799); (66760, 66800); (66761, 66801); (66762, 66802); (66763, 66803);
  (66764, 66804); (66765, 66805); (66766, 66806); (66767, 66807); (66768, 66808); (66769, 66809); (66770, 66810); (66771, 66811);
  (66928, 66967); (66929, 66968); (66930, 66969); (66931, 66970); (66932, 66971); (66933, 66972); (66934, 66973); (66935, 66974);
  (66936, 66975); (66937, 66976); (66938, 66977); (66940, 66979); (66941, 66980); (66942, 66981); (66943, 66982); (66944, 66983);
  (66945, 66984); (66946, 66985); (66947, 66986); (66948, 66987); (66949, 66988); (66950, 66989); (66951, 66990); (66952, 66991);
  (66953, 66992); (66954, 66993); (66956, 66995); (66957, 66996); (66958, 66997); (66959, 66998); (66960, 66999); (66961, 67000);
  (66962, 67001); (66964, 67003); (66965, 67004); (68736, 68800); (68737, 68801); (68738, 68802); (68739, 68803); (68740, 68804);
  (68741, 68805); (68742, 68806); (68743, 68807); (68744, 68808); (68745, 68809); (68746, 68810); (68747, 68811); (68748, 68812);
  (68749, 68813); (68750, 68814); (68751, 68815); (68752, 68816); (68753, 68817); (68754, 68818); (68755, 68819); (68756, 68820);
  (68757, 68821); (68758, 68822); (68759, 68823); (68760, 68824); (68761, 68825); (68762, 68826); (68763, 68827); (68764, 68828);
  (68765, 68829); (68766, 68830); (68767, 68831); (68768, 68832); (68769, 68833); (68770, 68834); (68771, 68835); (68772, 68836);
  (68773, 68837); (68774, 68838); (68775, 68839); (68776, 68840); (68777, 68841); (68778, 68842); (68779, 68843); (68780, 68844);
  (68781, 68845); (68782, 68846); (68783, 68847); (68784, 68848); (68785, 68849); (68786, 68850); (71840, 71872); (71841, 71873);
  (71842, 71874); (71843, 71875); (71844, 71876); (71845, 71877); (71846, 71878); (71847, 71879); (71848, 71880); (71849, 71881);
  (71850, 71882); (71851, 71883); (71852, 71884); (71853, 71885); (71854, 71886); (71855, 71887); (71856, 71888); (71857, 71889);
  (71858, 71890); (71859, 71891); (71860, 71892); (71861, 71893); (71862, 71894); (71863, 71895); (71864, 71896); (71865, 71897);
  (71866, 71898); (71867, 71899); (71868, 71900); (71869, 71901); (71870, 71902); (71871, 71903); (93760, 93792); (93761, 93793);
  (93762, 93794); (93763, 93795); (93764, 93796); (93765, 93797); (93766, 93798); (93767, 93799); (93768, 93800); (93769, 93801);
  (93770, 93802); (93771, 93803); (93772, 93804); (93773, 93805); (93774, 93806); (93775, 93807); (93776, 93808); (93777, 93809);
  (93778, 93810); (93779, 93811); (93780, 93812); (93781, 93813); (93782, 93814); (93783, 93815); (93784, 93816); (93785, 93817);
  (93786, 93818); (93787, 93819); (93788, 93820); (93789, 93821); (93790, 93822); (93791, 93823); (125184, 125218); (125185, 125219);
  (125186, 125220); (125187, 125221); (125188, 125222); (125189, 125223); (125190, 125224); (125191, 125225); (125192, 125226); (125193, 125227);
  (125194, 125228); (125195, 125229); (125196, 125230); (125197, 125231); (125198, 125232); (125199, 125233); (125200, 125234); (125201, 125235);
  (125202, 125236); (125203, 125237); (125204, 125238); (125205, 125239); (125206, 125240); (125207, 125241); (125208, 125242); (125209, 125243);
  (125210, 125244); (125211, 125245); (125212, 125246); (125213, 125247); (125214, 125248); (125215, 125249); (125216, 125250); (125217, 125251)
].

Fixpoint lower_lookup (c : Z) (t : list (Z * Z)) : Z :=
  match t with
  | [] => c
  | (k, v) :: r => if Z.eqb c k then v else lower_lookup c r
  end.

(** [chr(c).lower()]: U+0130 (LATIN CAPITAL LETTER I WITH DOT ABOVE) is
    the only character whose lower case is two characters, ["i̇"]. *)
Definition py_lower (c : Z) : list Z :=
  if Z.eqb c 304 then [105; 775] else [lower_lookup c lower_table].

(** ** [string.printable] *)

(** Digits, letters, punctuation, then whitespace [' \t\n\r\x0b\x0c']. *)
Definition py_digits : list Z := of_ascii "0123456789".
Definition py_ascii_letters : list Z :=
  of_ascii "abcdefghijklmnopqrstuvwxyzABCDEFGHIJKLMNOPQRSTUVWXYZ".
Definition py_punctuation : list Z :=
  of_ascii "!" ++ [34] ++ of_ascii "#$%&'()*+,-./:;<=>?@[\]^_`{|}~".
Definition py_whitespace : list Z := [32; 9; 10; 13; 11; 12].
Definition printable : list Z :=
  py_digits ++ py_ascii_letters ++ py_punctuation ++ py_whitespace.

(** [seq.index(x)], when [x] occurs. *)
Fixpoint index_of (c : Z) (l : list Z) : nat :=
  match l with
  | [] => O
  | d :: r => if Z.eqb c d then O else S (index_of c r)
  end.

(** [non_printable = string.printable[string.printable.index(" ") + 1 :]] *)
Definition non_printable : list Z :=
  skipn (index_of 32 printable + 1) printable.

(** ** Reading the file *)

(** [open(filename, "r", encoding="UTF-8").read()] on the decoded text:
    with [newline=None] (universal newlines), ["\r\n"] and a lone ["\r"]
    are both read as ["\n"]. *)
Fixpoint read_text (s : list Z) : list Z :=
  match s with
  | [] => []
  | c :: r =>
      if Z.eqb c 13 then
        match r with
        | d :: r' => if Z.eqb d 10 then 10 :: read_text r' else 10 :: read_text r
        | [] => [10]
        end
      else c :: read_text r
  end.

(** ** [next_character] *)

(** The locals of the generator: [first_char], [last_char] and the values
    yielded so far. *)
Record filter_state : Type := mkFS {
  first_char : option (list Z);
  last_char : option (list Z);
  yielded : list (list Z)
}.

(** [char != last_char] ([last_char] may be [None]). *)
Definition opt_neq (c : list Z) (o : option (list Z)) : bool :=
  match o with
  | Some d => negb (str_eqb c d)
  | None => true
  end.

(** One iteration of [for char in file.read()]. *)
Definition filter_step (ignore_case : bool) (st : filter_state) (c : Z)
  : filter_state :=
  if negb (mem c non_printable) then
    let c' := if ignore_case then [c] else py_lower c in
    let f := match first_char st with None => Some c' | Some x => Some x end in
    mkFS f (Some c') (yielded st ++ [c'])
  else if Z.eqb c 10 && opt_neq [c] (last_char st) then
    let f := match first_char st with None => Some [c] | Some x => Some x end in
    mkFS f (Some [10]) (yielded st ++ [[32]])
  else st.

Definition filter_run (text : list Z) (ignore_case : bool) : filter_state :=
  fold_left (filter_step ignore_case) text (mkFS None None []).

(** Everything the generator yields, in order, when the file holds [text]:
    the filtered values, then the final [yield first_char] ([None] is
    Python's [None]). *)
Definition next_character (text : list Z) (ignore_case : bool)
  : list (option (list Z)) :=
  let st := filter_run (read_text text) ignore_case in
  map Some (yielded st) ++ [first_char st].

(** ** Binary64 floating point *)

Definition pow2 (k : Z) : Q := Qpower (2 # 1) k.

(** [floor(log2 x)] for [x > 0]. *)
Definition flog2 (x : Q) : Z :=
  let a := Z.log2 (Qnum x) in
  let b := Z.log2 (Zpos (Qden x)) in
  if (Zpos (Qden x) * 2 ^ a <=? Qnum x * 2 ^ b) then a - b else a - b - 1.

(** The integer nearest to [y >= 0], ties to even. *)
Definition round_half_even (y : Q) : Z :=
  let n := Qnum y in
  let d := Zpos (Qden y) in
  let q := n / d in
  match Z.compare (2 * (n mod d)) d with
  | Lt => q
  | Gt => q + 1
  | Eq => if Z.even q then q else q + 1
  end.

(** The exponent of the last place of a binary64 number near [x > 0]:
    53-bit significands, and the subnormal exponent [-1074] at the
    bottom. *)
Definition rexp (x : Q) : Z := Z.max (flog2 x - 52) (-1074).

(** Rounding to nearest, ties to even, with an unbounded exponent above;
    overflow is decided by [of_exact]. *)
Definition round64 (x : Q) : Q :=
  if Qeq_bool x 0 then 0%Q else
  let ax := Qabs x in
  let m := round_half_even (ax * pow2 (- rexp ax)) in
  Qred (inject_Z (if Qle_bool 0 x then m else - m) * pow2 (rexp ax)).

Inductive float : Type :=
| Fin (q : Q)
| Inf (neg : bool)
| NaN.

(** The float nearest to the exact result [x]: infinite when the rounded
    value reaches [2 ^ 1024]. *)
Definition of_exact (x : Q) : float :=
  let r := round64 x in
  if Qle_bool (pow2 1024) (Qabs r) then Inf (negb (Qle_bool 0 x)) else Fin r.

(** [x + y] *)
Definition fl_add (x y : float) : float :=
  match x, y with
  | NaN, _ | _, NaN => NaN
  | Inf s, Inf t => if Bool.eqb s t then Inf s else NaN
  | Inf s, Fin _ | Fin _, Inf s => Inf s
  | Fin a, Fin b => of_exact (a + b)
  end.

(** [x * y] *)
Definition fl_mul (x y : float) : float :=
  match x, y with
  | NaN, _ | _, NaN => NaN
  | Inf s, Inf t => Inf (xorb s t)
  | Inf s, Fin b | Fin b, Inf s =>
      if Qeq_bool b 0 then NaN else Inf (xorb s (negb (Qle_bool 0 b)))
  | Fin a, Fin b => of_exact (a * b)
  end.

(** [x < y] *)
Definition fl_lt (x y : float) : bool :=
  match x, y with
  | Fin a, Fin b => negb (Qle_bool b a)
  | Inf s, Inf t => s && negb t
  | Fin _, Inf t => negb t
  | Inf s, Fin _ => s
  | _, _ => false
  end.

(** [x <= y] *)
Definition fl_le (x y : float) : bool :=
  match x, y with
  | Fin a, Fin b => Qle_bool a b
  | Inf s, Inf t => s || negb t
  | Fin _, Inf t => negb t
  | Inf s, Fin _ => s
  | _, _ => false
  end.

(** [x == y] *)
Definition fl_eqb (x y : float) : bool :=
  match x, y with
  | Fin a, Fin b => Qeq_bool a b
  | Inf s, Inf t => Bool.eqb s t
  | _, _ => false
  end.

(** [math.isfinite(x)] *)
Definition fl_isfinite (x : float) : bool :=
  match x with
  | Fin _ => true
  | _ => false
  end.

(** The quotient of two counts as a rational. *)
Definition qdiv (v total : nat) : Q := inject_Z (Z.of_nat v) / inject_Z (Z.of_nat total).

(** [v / total_occ] on two [int]s: CPython's int true division is
    correctly rounded.  At its only call [0 < v <= total_occ], so the
    quotient lies in [(0, 1]] and neither [ZeroDivisionError] nor
    [OverflowError] arises. *)
Definition int_truediv (v total : nat) : float := Fin (round64 (qdiv v total)).

(** ** [create_automaton] and [normalize_automaton] *)

(** [dict[str, dict[str, int]]], a [defaultdict(lambda: defaultdict(int))]. *)
Definition counts := list (list Z * list (list Z * nat)).

(** [Automaton = dict[str, tuple[list[str], list[float]]]] *)
Definition automaton := list (list Z * (list (list Z) * list float)).

(** [d[c] += 1] on a [defaultdict(int)]: a missing key is appended with 0. *)
Fixpoint incr_inner (m : list (list Z * nat)) (c : list Z) : list (list Z * nat) :=
  match m with
  | [] => [(c, 1%nat)]
  | (k, v) :: r => if str_eqb k c then (k, S v) :: r else (k, v) :: incr_inner r c
  end.

(** [automaton[curr][char] += 1] *)
Fixpoint incr (a : counts) (curr c : list Z) : counts :=
  match a with
  | [] => [(curr, [(c, 1%nat)])]
  | (k, m) :: r =>
      if str_eqb k curr then (k, incr_inner m c) :: r else (k, m) :: incr r curr c
  end.

(** [s[1:]] *)
Definition tail_str (s : list Z) : list Z := tl s.

(** [for _ in range(order): curr += next(gen)]: an exhausted generator
    raises [StopIteration], and [curr + None] raises [TypeError]. *)
Fixpoint prime (k : nat) (curr : list Z) (s : list (option (list Z)))
  : result (list Z * list (option (list Z))) :=
  match k with
  | O => Ok (curr, s)
  | S k' =>
      match s with
      | [] => Err StopIteration
      | None :: _ => Err TypeError
      | Some c :: s' => prime k' (curr ++ c) s'
      end
  end.

(** [for char in gen: automaton[curr][char] += 1; curr = curr[1:] + char];
    [curr[1:] + None] raises [TypeError]. *)
Fixpoint count_loop (a : counts) (curr : list Z) (s : list (option (list Z)))
  : result counts :=
  match s with
  | [] => Ok a
  | None :: _ => Err TypeError
  | Some c :: s' => count_loop (incr a curr c) (tail_str curr ++ c) s'
  end.

(** [sum(transitions.values())] *)
Definition sum_nat (l : list nat) : nat := fold_left Nat.add l O.

(** [normalize_automaton] *)
Definition normalize_automaton (a : counts) : automaton :=
  map (fun '(state, transitions) =>
         let total_occ := sum_nat (map snd transitions) in
         (state, (map fst transitions,
                  map (fun v => int_truediv v total_occ) (map snd transitions))))
      a.

(** [create_automaton(order, filename, ignore_case)] where the file holds
    [text]; [range(order)] is empty when [order <= 0]. *)
Definition create_automaton (order : Z) (text : list Z) (ignore_case : bool)
  : result automaton :=
  let gen := next_character text ignore_case in
  p <- prime (Z.to_nat order) [] gen ;;
  let '(curr, rest) := p in
  c <- count_loop [] curr rest ;;
  Ok (normalize_automaton c).

(** ** The [random] module *)

(** The state of Python's global generator, seen through the values that
    successive calls of [random()] return. *)
Record rng : Type := mkRng {
  draws : nat -> Q;
  pos : nat
}.

(** [random()] *)
Definition random_ (g : rng) : Q * rng :=
  (draws g (pos g), mkRng (draws g) (S (pos g))).

(** [itertools.accumulate] with [+]. *)
Fixpoint accumulate_from (acc : float) (l : list float) : list float :=
  match l with
  | [] => []
  | x :: r => fl_add acc x :: accumulate_from (fl_add acc x) r
  end.

Definition accumulate (l : list float) : list float :=
  match l with
  | [] => []
  | x :: r => x :: accumulate_from x r
  end.

(** [bisect.bisect_right(a, x, lo, hi)]; every round shrinks [hi - lo],
    so [hi - lo + 1] rounds suffice. *)
Fixpoint bisect_fuel (fuel : nat) (a : list float) (x : float) (lo hi : nat) : nat :=
  match fuel with
  | O => lo
  | S f =>
      if (lo <? hi)%nat then
        let mid := ((lo + hi) / 2)%nat in
        if fl_lt x (nth mid a (Fin 0)) then bisect_fuel f a x lo mid
        else bisect_fuel f a x (S mid) hi
      else lo
  end.

Definition bisect_right (a : list float) (x : float) (lo hi : nat) : nat :=
  bisect_fuel (hi - lo + 1) a x lo hi.

(** [l[-1]] *)
Fixpoint last_opt {A} (l : list A) : option A :=
  match l with
  | [] => None
  | [x] => Some x
  | _ :: r => last_opt r
  end.

(** [random.choices(population, weights)[0]] (CPython 3.11):
    [cum_weights = list(accumulate(weights))]; a length mismatch raises
    [ValueError]; [total = cum_weights[-1] + 0.0]; a total [<= 0.0] or not
    finite raises [ValueError]; then one call of [random()] is scaled by
    [total] and located by [bisect_right(cum_weights, _, 0, n - 1)]. *)
Definition choices (population : list (list Z)) (weights : list float) (g : rng)
  : result (list Z * rng) :=
  let n := List.length population in
  let cum_weights := accumulate weights in
  if negb (Nat.eqb (List.length cum_weights) n) then Err ValueError else
  match last_opt cum_weights with
  | None => Err IndexError
  | Some last =>
      let total := fl_add last (Fin 0) in
      if fl_le total (Fin 0) then Err ValueError else
      if negb (fl_isfinite total) then Err ValueError else
      let '(r, g') := random_ g in
      let hi := (n - 1)%nat in
      match nth_error population (bisect_right cum_weights (fl_mul (Fin r) total) 0 hi) with
      | Some x => Ok (x, g')
      | None => Err IndexError
      end
  end.

(** ** [generate] *)

(** [automaton[state]] *)
Fixpoint lookup {V} (k : list Z) (d : list (list Z * V)) : option V :=
  match d with
  | [] => None
  | (k', v) :: r => if str_eqb k k' then Some v else lookup k r
  end.

(** [k] rounds of [while index < length: res[index] =
    random.choices( *automaton[state])[0]; state = state[1:] + res[index];
    index += 1]: the values stored, the final [state] and the generator. *)
Fixpoint walk (k : nat) (a : automaton) (state : list Z) (g : rng)
  : result (list (list Z) * list Z * rng) :=
  match k with
  | O => Ok ([], state, g)
  | S k' =>
      match lookup state a with
      | None => Err KeyError
      | Some (successors, probabilities) =>
          p <- choices successors probabilities g ;;
          let '(x, g') := p in
          q <- walk k' a (tail_str state ++ x) g' ;;
          let '(rest, st, g'') := q in
          Ok (x :: rest, st, g'')
      end
  end.

(** What the call reads from its surroundings: the content of [filename]
    as text ([raw]) or as the automaton [import_automaton] loads from it,
    and the state [random.seed(None)] draws from the operating system. *)
Record env : Type := mkEnv {
  env_text : list Z;
  env_model : automaton;
  env_entropy : nat -> Q
}.

Section Generate.

(** The values [random()] returns after [random.seed(s)] for an integer
    [s] (the Mersenne Twister), left abstract. *)
Variable mt_draws : Z -> nat -> Q.

(** [random.seed(seed)] *)
Definition seed_rng (seed : option Z) (e : env) : rng :=
  match seed with
  | Some s => mkRng (mt_draws s) 0
  | None => mkRng (env_entropy e) 0
  end.

(** [generate(length, order, filename, seed, export, raw, ignore_case)].
    With [export], [save_automaton] writes a file and returns nothing; it
    has no influence on the returned string. *)
Definition generate (length order : Z) (seed : option Z)
  (export raw ignore_case : bool) (e : env) : result (list Z) :=
  let g := seed_rng seed e in
  a <- (if raw then create_automaton order (env_text e) ignore_case
        else Ok (env_model e)) ;;
  state <- match a with
           | [] => Err StopIteration
           | (k, _) :: _ => Ok k
           end ;;
  res <- walk (Z.to_nat length) a state g ;;
  let '(pieces, _, _) := res in
  Ok (List.concat pieces).

End Generate.

(** ** [save_automaton] and [import_automaton] *)

(** Python values that occur in an automaton and in what [json.loads]
    returns. *)
Inductive pyval : Type :=
| PStr (s : list Z)
| PFloat (f : float)
| PList (l : list pyval)
| PTuple (l : list pyval)
| PDict (kv : list (list Z * pyval)).

(** JSON documents.  [json.dumps] writes a float with [float.__repr__]
    (and [NaN], [Infinity]), which [json.loads] reads back to the same
    float, and a string with escapes that [json.loads] undoes; so the text
    layer is not modelled. *)
Inductive json : Type :=
| JStr (s : list Z)
| JNum (f : float)
| JArr (l : list json)
| JObj (kv : list (list Z * json)).

(** The in-memory automaton as a Python value: each entry is a tuple. *)
Definition automaton_to_py (a : automaton) : pyval :=
  PDict (map (fun '(k, (succ, probs)) =>
                (k, PTuple [PList (map PStr succ); PList (map PFloat probs)])) a).

(** [json.dumps]: lists and tuples both become arrays. *)
Fixpoint dumps (v : pyval) : json :=
  match v with
  | PStr s => JStr s
  | PFloat f => JNum f
  | PList l => JArr (map dumps l)
  | PTuple l => JArr (map dumps l)
  | PDict kv => JObj (map (fun '(k, x) => (k, dumps x)) kv)
  end.

(** [d[k] = v] on a dict: an existing key keeps its position. *)
Fixpoint dict_set (d : list (list Z * pyval)) (k : list Z) (v : pyval)
  : list (list Z * pyval) :=
  match d with
  | [] => [(k, v)]
  | (k', v') :: r => if str_eqb k k' then (k', v) :: r else (k', v') :: dict_set r k v
  end.

(** [json.loads]: arrays become lists; an object is built by inserting its
    members in order (a repeated key keeps the last value). *)
Fixpoint loads (j : json) : pyval :=
  match j with
  | JStr s => PStr s
  | JNum f => PFloat f
  | JArr l => PList (map loads l)
  | JObj kv => PDict (fold_left (fun d '(k, x) => dict_set d k (loads x)) kv [])
  end.

(** [save_automaton]: the JSON document written to [json/<stem>.json]. *)
Definition save_automaton (a : automaton) : json := dumps (automaton_to_py a).

(** [import_automaton]: the value read back from a JSON document. *)
Definition import_automaton (j : json) : pyval := loads j.

(** Python's [==] on these values: a tuple never equals a list, and dict
    equality ignores the order of the keys. *)
Fixpoint py_eq (a b : pyval) : bool :=
  match a, b with
  | PStr s, PStr t => str_eqb s t
  | PFloat x, PFloat y => fl_eqb x y
  | PList xs, PList ys | PTuple xs, PTuple ys =>
      (fix go (xs ys : list pyval) : bool :=
         match xs, ys with
         | [], [] => true
         | x :: xs', y :: ys' => py_eq x y && go xs' ys'
         | _, _ => false
         end) xs ys
  | PDict xs, PDict ys =>
      Nat.eqb (List.length xs) (List.length ys) &&
      (fix go (xs : list (list Z * pyval)) : bool :=
         match xs with
         | [] => true
         | (k, v) :: r =>
             match lookup k ys with
             | Some w => py_eq v w
             | None => false
             end && go r
         end) xs
  | _, _ => false
  end.

(** The value [json.loads] gives back for an automaton: the same keys in
    the same order, each with the list [[successors, probabilities]]. *)
Definition automaton_as_loaded (a : automaton) : pyval :=
  PDict (map (fun '(k, (succ, probs)) =>
                (k, PList [PList (map PStr succ); PList (map PFloat probs)])) a).

(** ** Notions used in the statements *)

(** The values [next_character] yields before its final one. *)
Definition filtered (text : list Z) (ignore_case : bool) : list (list Z) :=
  yielded (filter_run (read_text text) ignore_case).

(** The exact sum of a list of rationals. *)
Definition sumQ (l : list Q) : Q := fold_right Qplus 0%Q l.

(** [sum(l)] on floats, as CPython 3.11 computes it: [0] plus each
    element in turn, from the left. *)
Definition py_sum (l : list float) : float := fold_left fl_add l (Fin 0).

(** [math.isclose(a, b, rel_tol=rel_tol)] on finite values. *)
Definition isclose (a b rel_tol : Q) : bool :=
  Qle_bool (Qabs (a - b)) (rel_tol * Qmax (Qabs a) (Qabs b)).

(** The unit roundoff of binary64, [2 ^ -53]. *)
Definition u53 : Q := 1 # 9007199254740992.

Definition Qofnat (n : nat) : Q := inject_Z (Z.of_nat n).

(** Shape of a raw count table: every context has at least one successor
    and every count is positive. *)
Definition counts_ok (c : counts) : Prop :=
  Forall (fun e => snd e <> [] /\ Forall (fun kv => (0 < snd kv)%nat) (snd e)) c.


(** The filter as the corrected description words it, on the text after
    the translation of line ends: tab, carriage return, vertical tab and
    form feed are dropped; a newline becomes a space unless the last
    character that was not dropped that way was itself a newline, in which
    case it is dropped; every other character passes, as its [str.lower()]
    unless [ignore_case].  [prev_nl] records whether that last character
    was a newline. *)
Definition dropped_ws (c : Z) : bool := mem c [9; 13; 11; 12].

Fixpoint filter_spec_from (prev_nl ignore_case : bool) (t : list Z) : list (list Z) :=
  match t with
  | [] => []
  | c :: r =>
      if dropped_ws c then filter_spec_from prev_nl ignore_case r
      else if Z.eqb c 10 then
        (if prev_nl then [] else [[32]]) ++ filter_spec_from true ignore_case r
      else (if ignore_case then [c] else py_lower c) :: filter_spec_from false ignore_case r
  end.

Definition filter_spec (ignore_case : bool) (t : list Z) : list (list Z) :=
  filter_spec_from false ignore_case t.

Definition prev_is_nl (st : filter_state) : bool :=
  match last_char st with
  | Some d => str_eqb d [10]
  | None => false
  end.

Definition spec_step (prev_nl ic : bool) (c : Z) : list (list Z) * bool :=
  if dropped_ws c then ([], prev_nl)
  else if Z.eqb c 10 then ((if prev_nl then [] else [[32]]), true)
  else ([if ic then [c] else py_lower c], false).

Definition counts_nodup (c : counts) : Prop :=
  NoDup (map fst c) /\ Forall (fun e => NoDup (map fst (snd e))) c.

(** Every character of every context and successor of a count table
    satisfies [P]. *)
Definition counts_chars (P : Z -> Prop) (c : counts) : Prop :=
  Forall (fun e => Forall P (fst e) /\ Forall (fun kv => Forall P (fst kv)) (snd e)) c.

(** Every successor of a count table satisfies [P]. *)
Definition counts_pieces (P : list Z -> Prop) (c : counts) : Prop :=
  Forall (fun e => Forall (fun kv => P (fst kv)) (snd e)) c.

(** Every character of every value in a stream of [next_character]
    satisfies [P]. *)
Definition stream_chars (P : Z -> Prop) (s : list (option (list Z))) : Prop :=
  forall v, In (Some v) s -> Forall P v.

(** Every value in a stream of [next_character] satisfies [P]. *)
Definition stream_pieces (P : list Z -> Prop) (s : list (option (list Z))) : Prop :=
  forall v, In (Some v) s -> P v.

(** Every successor in a count table is a context of the table, or is
    [curr], the context the counting loop holds at that point. *)
Definition succ_closed (c : counts) (curr : list Z) : Prop :=
  forall k m x, In (k, m) c -> In x (map fst m) -> In x (map fst c) \/ x = curr.

(** An upper-case ASCII letter. *)
Definition is_upper (c : Z) : bool := (65 <=? c) && (c <=? 90).

(** A value the filter can yield from a Python [str]: one code point below
    [0x110000], or the two characters of ["İ".lower()]. *)
Definition piece_ok (v : list Z) : Prop :=
  (exists c, v = [c] /\ 0 <= c < 1114112) \/ v = [105; 775].

Definition piece_index (v : list Z) : nat :=
  match v with
  | [c] => Z.to_nat c
  | _ => Z.to_nat 1114112
  end.

(** The sum of all counts of a table. *)
Definition total_counts (c : counts) : nat :=
  fold_right (fun e acc => (fold_right Nat.add O (map snd (snd e)) + acc)%nat) O c.

Definition sample_automaton : automaton :=
  [([97], ([[98]], [Fin 1])); ([98], ([[97]], [Fin 1]))].

Example non_printable_value : non_printable = [9; 10; 13; 11; 12].
Proof. vm_compute; reflexivity. Qed.

Example next_character_ex1 :
  next_character (of_ascii "Ab") false = [Some [97]; Some [98]; Some [97]].
Proof. vm_compute; reflexivity. Qed.

Example next_character_ex2 :
  next_character [10; 97] false = [Some [32]; Some [97]; Some [10]].
Proof. vm_compute; reflexivity. Qed.

Example next_character_ex3 :
  next_character [304; 13; 10; 200] false = [Some [105; 775]; Some [32]; Some [232]; Some [105; 775]].
Proof. vm_compute; reflexivity. Qed.

Example create_ex1 :
  create_automaton 1 (of_ascii "ababab") false
  = Ok [([97], ([[98]], [Fin 1])); ([98], ([[97]], [Fin 1]))].
Proof. vm_compute; reflexivity. Qed.

Example create_ex2 :
  create_automaton 1 (of_ascii "abac") false
  = Ok [([97], ([[98]; [99]], [Fin (1 # 2); Fin (1 # 2)]));
        ([98], ([[97]], [Fin 1])); ([99], ([[97]], [Fin 1]))].
Proof. vm_compute; reflexivity. Qed.

(** [1 / 3] rounds to the binary64 value [6004799503160661 / 2 ^ 54]. *)
Example create_ex3 :
  create_automaton 1 (of_ascii "abaca") false
  = Ok [([97], ([[98]; [99]; [97]],
                [Fin (6004799503160661 # 18014398509481984);
                 Fin (6004799503160661 # 18014398509481984);
                 Fin (6004799503160661 # 18014398509481984)]));
        ([98], ([[97]], [Fin 1])); ([99], ([[97]], [Fin 1]))].
Proof. vm_compute; reflexivity. Qed.

Example generate_ex1 :
  generate (fun _ _ => 0%Q) 4 1 (Some 0) false true false
    (mkEnv (of_ascii "ababab") [] (fun _ => 0%Q))
  = Ok (of_ascii "baba").
Proof. vm_compute; reflexivity. Qed.

(** * Lemmas *)

(** ** Strings *)

Lemma str_eqb_eq (s t : list Z) : str_eqb s t = true <-> s = t.
Proof.
  revert t; induction s as [|a s IH]; intros [|b t]; simpl;
    try (split; [discriminate | congruence]); [split; reflexivity|].
  rewrite andb_true_iff, Z.eqb_eq, IH.
  split; [intros [-> ->]; reflexivity | intros H; injection H as -> ->; split; reflexivity].
Qed.

Lemma str_eqb_refl (s : list Z) : str_eqb s s = true.
Proof. apply str_eqb_eq; reflexivity. Qed.

Lemma str_eqb_spec (s t : list Z) : reflect (s = t) (str_eqb s t).
Proof. apply iff_reflect; symmetry; apply str_eqb_eq. Qed.

Lemma str_eqb_sym (s t : list Z) : str_eqb s t = str_eqb t s.
Proof.
  destruct (str_eqb_spec s t) as [->|H]; [symmetry; apply str_eqb_refl|].
  destruct (str_eqb_spec t s) as [->|_]; [congruence | reflexivity].
Qed.

Lemma mem_In (c : Z) (l : list Z) : mem c l = true <-> In c l.
Proof.
  induction l as [|d r IH]; simpl; [split; [discriminate | tauto]|].
  rewrite orb_true_iff, Z.eqb_eq, IH; split; intros [H|H]; auto.
Qed.

(** ** [non_printable] *)

Lemma mem_non_printable (c : Z) :
  mem c non_printable = dropped_ws c || Z.eqb c 10.
Proof.
  rewrite non_printable_value; unfold dropped_ws; simpl.
  destruct (Z.eqb c 9), (Z.eqb c 10), (Z.eqb c 13), (Z.eqb c 11), (Z.eqb c 12); reflexivity.
Qed.

Lemma mem_non_printable_false (c : Z) :
  mem c non_printable = false <-> c < 9 \/ 13 < c.
Proof.
  rewrite non_printable_value; simpl.
  destruct (Z.eqb_spec c 9), (Z.eqb_spec c 10), (Z.eqb_spec c 13), (Z.eqb_spec c 11),
    (Z.eqb_spec c 12); simpl; split; intros H; try discriminate; try reflexivity; lia.
Qed.

Lemma dropped_ws_true (c : Z) : dropped_ws c = true <-> In c [9; 13; 11; 12].
Proof. apply mem_In. Qed.

(** ** [str.lower] *)

Lemma lower_lookup_cases (c : Z) (t : list (Z * Z)) :
  lower_lookup c t = c \/ In (lower_lookup c t) (map snd t).
Proof.
  induction t as [|[k v] r IH]; simpl; [left; reflexivity|].
  destruct (Z.eqb c k); [right; left; reflexivity|].
  destruct IH as [H|H]; [left; exact H | right; right; exact H].
Qed.

(** What the table maps to: code points of a [str], none of them a
    control whitespace character, an upper-case ASCII letter or U+0130,
    and each its own lower case. *)
Lemma lower_outputs (v : Z) : In v (map snd lower_table) ->
  (0 <= v < 1114112) /\ (v < 9 \/ 13 < v) /\ is_upper v = false /\ v <> 304 /\
  lower_lookup v lower_table = v.
Proof.
  intros Hv.
  assert (H : forallb (fun v => (0 <=? v) && (v <? 1114112) && ((v <? 9) || (13 <? v)) &&
                              negb (is_upper v) && negb (v =? 304) &&
                              (lower_lookup v lower_table =? v))
                (map snd lower_table) = true) by (vm_compute; reflexivity).
  rewrite forallb_forall in H; specialize (H v Hv).
  repeat rewrite andb_true_iff in H.
  destruct H as [[[[[H1 H2] H3] H4] H5] H6].
  apply Z.leb_le in H1; apply Z.ltb_lt in H2; apply negb_true_iff in H4, H5.
  apply Z.eqb_neq in H5; apply Z.eqb_eq in H6.
  apply orb_true_iff in H3; rewrite Z.ltb_lt, Z.ltb_lt in H3.
  repeat split; try lia; assumption.
Qed.

Lemma lower_lookup_upper (c : Z) : 65 <= c <= 90 -> lower_lookup c lower_table = c + 32.
Proof.
  intros Hc.
  assert (H : forallb (fun n => Z.eqb (lower_lookup (65 + Z.of_nat n) lower_table)
                                      (97 + Z.of_nat n)) (seq 0 26) = true)
    by (vm_compute; reflexivity).
  rewrite forallb_forall in H.
  specialize (H (Z.to_nat (c - 65)) ltac:(apply in_seq; lia)).
  rewrite Z2Nat.id in H by lia; apply Z.eqb_eq in H.
  replace (65 + (c - 65)) with c in H by lia; lia.
Qed.

Lemma py_lower_cases (c : Z) :
  (c = 304 /\ py_lower c = [105; 775]) \/
  (c <> 304 /\ py_lower c = [c]) \/
  (c <> 304 /\ exists v, py_lower c = [v] /\ In v (map snd lower_table)).
Proof.
  unfold py_lower; destruct (Z.eqb_spec c 304) as [->|Hne]; [left; split; reflexivity|].
  right; destruct (lower_lookup_cases c lower_table) as [H|H].
  - left; rewrite H; split; [exact Hne | reflexivity].
  - right; split; [exact Hne|]; eexists; split; [reflexivity | exact H].
Qed.

Lemma py_lower_not_upper (c : Z) : Forall (fun d => is_upper d = false) (py_lower c).
Proof.
  destruct (py_lower_cases c) as [[-> ->]|[[Hne E]|[Hne [v [-> Hv]]]]].
  - repeat constructor.
  - rewrite E; constructor; [|constructor].
    destruct (is_upper c) eqn:Hu; [|reflexivity].
    unfold is_upper in Hu; apply andb_true_iff in Hu as [H1 H2].
    apply Z.leb_le in H1; apply Z.leb_le in H2.
    exfalso; pose proof (lower_lookup_upper c (conj H1 H2)) as E'.
    unfold py_lower in E; rewrite (proj2 (Z.eqb_neq c 304) Hne) in E.
    rewrite E' in E; injection E as E; lia.
  - repeat constructor; apply (lower_outputs v Hv).
Qed.

Lemma py_lower_keeps_printable (c : Z) :
  mem c non_printable = false -> Forall (fun d => mem d non_printable = false) (py_lower c).
Proof.
  intros Hc; rewrite mem_non_printable_false in Hc.
  destruct (py_lower_cases c) as [[-> ->]|[[Hne ->]|[Hne [v [-> Hv]]]]].
  - repeat constructor.
  - repeat constructor; apply mem_non_printable_false; exact Hc.
  - repeat constructor; apply mem_non_printable_false, (lower_outputs v Hv).
Qed.

Lemma py_lower_fixed (c : Z) : Forall (fun d => py_lower d = [d]) (py_lower c).
Proof.
  destruct (py_lower_cases c) as [[-> ->]|[[Hne E]|[Hne [v [-> Hv]]]]].
  - repeat constructor.
  - rewrite E; repeat constructor; exact E.
  - destruct (lower_outputs v Hv) as [_ [_ [_ [H1 H2]]]].
    repeat constructor; unfold py_lower.
    rewrite (proj2 (Z.eqb_neq v 304) H1), H2; reflexivity.
Qed.

Lemma py_lower_single (c : Z) : c <> 304 -> List.length (py_lower c) = 1%nat.
Proof. intros Hc; unfold py_lower; rewrite (proj2 (Z.eqb_neq c 304) Hc); reflexivity. Qed.

Lemma py_lower_piece (c : Z) : 0 <= c < 1114112 -> piece_ok (py_lower c).
Proof.
  intros Hc; unfold piece_ok.
  destruct (py_lower_cases c) as [[-> ->]|[[Hne ->]|[Hne [v [-> Hv]]]]].
  - right; reflexivity.
  - left; exists c; split; [reflexivity | exact Hc].
  - left; exists v; split; [reflexivity | apply (lower_outputs v Hv)].
Qed.

Lemma py_lower_nonempty (c : Z) : py_lower c <> [].
Proof. unfold py_lower; destruct (Z.eqb c 304); discriminate. Qed.

(** A value the filter yields for a printable character is not the
    newline. *)
Lemma kept_not_nl (ic : bool) (c : Z) :
  mem c non_printable = false -> str_eqb (if ic then [c] else py_lower c) [10] = false.
Proof.
  intros Hc; destruct (str_eqb_spec (if ic then [c] else py_lower c) [10]) as [E|]; [|reflexivity].
  exfalso; destruct ic.
  - injection E as ->; discriminate.
  - pose proof (py_lower_keeps_printable c Hc) as H; rewrite E in H.
    inversion H; discriminate.
Qed.

(** ** Reading with universal newlines *)

Lemma read_text_cons (c : Z) (r : list Z) :
  read_text (c :: r) =
  if Z.eqb c 13 then
    match r with
    | d :: r' => if Z.eqb d 10 then 10 :: read_text r' else 10 :: read_text r
    | [] => [10]
    end
  else c :: read_text r.
Proof. reflexivity. Qed.

(** Induction on the length of a list, for [read_text], which may
    consume two characters at once. *)
Lemma list_len_ind (P : list Z -> Prop) :
  (forall t, (forall t', (List.length t' < List.length t)%nat -> P t') -> P t) ->
  forall t, P t.
Proof.
  intros H t.
  assert (G : forall n t, (List.length t <= n)%nat -> P t).
  { induction n as [|n IH]; intros t' Ht'; apply H; intros t'' Ht''; [lia | apply IH; lia]. }
  apply (G (List.length t)); lia.
Qed.

Lemma read_text_in (t : list Z) (c : Z) : In c (read_text t) -> In c t \/ c = 10.
Proof.
  revert c; pattern t; apply list_len_ind; clear t; intros t IH; intros x.
  destruct t as [|c r]; [simpl; tauto|].
  rewrite read_text_cons.
  destruct (Z.eqb_spec c 13) as [->|Hne].
  - destruct r as [|d r'].
    + intros [<-|[]]; right; reflexivity.
    + destruct (Z.eqb_spec d 10) as [->|Hd]; intros [<-|Hx]; try (right; reflexivity).
      * destruct (IH r' ltac:(simpl; lia) x Hx) as [H|H]; [left; right; right; exact H | tauto].
      * destruct (IH (d :: r') ltac:(simpl; lia) x Hx) as [H|H]; [left; right; exact H | tauto].
  - intros [<-|Hx]; [left; left; reflexivity|].
    destruct (IH r ltac:(simpl; lia) x Hx) as [H|H]; [left; right; exact H | tauto].
Qed.

Lemma read_text_no_cr (t : list Z) : ~ In 13 (read_text t).
Proof.
  pattern t; apply list_len_ind; clear t; intros t IH.
  destruct t as [|c r]; [simpl; tauto|].
  rewrite read_text_cons.
  destruct (Z.eqb_spec c 13) as [->|Hne].
  - destruct r as [|d r'].
    + intros [H|[]]; discriminate.
    + destruct (Z.eqb d 10); intros [H|H]; try discriminate.
      * exact (IH r' ltac:(simpl; lia) H).
      * exact (IH (d :: r') ltac:(simpl; lia) H).
  - intros [H|H]; [congruence | exact (IH r ltac:(simpl; lia) H)].
Qed.

Lemma read_text_length (t : list Z) : (List.length (read_text t) <= List.length t)%nat.
Proof.
  pattern t; apply list_len_ind; clear t; intros t IH.
  destruct t as [|c r]; [simpl; lia|].
  rewrite read_text_cons.
  destruct (Z.eqb c 13).
  - destruct r as [|d r']; [simpl; lia|].
    destruct (Z.eqb d 10); simpl.
    + pose proof (IH r' ltac:(simpl; lia)); lia.
    + pose proof (IH (d :: r') ltac:(simpl; lia)); simpl in *; lia.
  - simpl; pose proof (IH r ltac:(simpl; lia)); lia.
Qed.

Lemma read_text_id (t : list Z) : ~ In 13 t -> read_text t = t.
Proof.
  induction t as [|c r IH]; intros H; [reflexivity|].
  rewrite read_text_cons.
  destruct (Z.eqb_spec c 13) as [->|Hne]; [exfalso; apply H; left; reflexivity|].
  rewrite IH; [reflexivity | intros Hr; apply H; right; exact Hr].
Qed.

Lemma last_cons_cond (c : Z) (r u : list Z) :
  (last (c :: r) 0 <> 13 \/ hd 0 u <> 10) -> (last r 0 <> 13 \/ hd 0 u <> 10).
Proof. destruct r as [|d r']; [intros _; left; simpl; lia | intros H; exact H]. Qed.

(** Reading [t ++ u] reads [t] and [u] apart, unless [t] ends with a
    carriage return and [u] starts with a line feed. *)
Lemma read_text_app (t u : list Z) :
  (last t 0 <> 13 \/ hd 0 u <> 10) -> read_text (t ++ u) = read_text t ++ read_text u.
Proof.
  revert u; pattern t; apply list_len_ind; clear t; intros t IH; intros u Hc.
  destruct t as [|c r]; [reflexivity|].
  pose proof (last_cons_cond c r u Hc) as Hc'.
  rewrite <- app_comm_cons, !read_text_cons.
  destruct (Z.eqb_spec c 13) as [->|Hne].
  - destruct r as [|d r'].
    + destruct Hc as [Hc|Hc]; [simpl in Hc; lia|].
      destruct u as [|d u']; [reflexivity|].
      cbn [app hd] in Hc |- *; rewrite (proj2 (Z.eqb_neq d 10) Hc); reflexivity.
    + rewrite <- app_comm_cons.
      destruct (Z.eqb_spec d 10) as [->|Hd].
      * rewrite IH; [reflexivity | simpl; lia | exact (last_cons_cond 10 r' u Hc')].
      * rewrite app_comm_cons, IH; [reflexivity | simpl; lia | exact Hc'].
  - rewrite IH; [reflexivity | simpl; lia | exact Hc'].
Qed.

Lemma read_text_crlf (t u : list Z) :
  read_text (t ++ 13 :: 10 :: u) = read_text t ++ 10 :: read_text u.
Proof. rewrite read_text_app by (right; simpl; lia); reflexivity. Qed.

(** ** The filter of [next_character] *)

Lemma filter_spec_from_cons (p ic : bool) (c : Z) (r : list Z) :
  filter_spec_from p ic (c :: r)
  = fst (spec_step p ic c) ++ filter_spec_from (snd (spec_step p ic c)) ic r.
Proof.
  unfold spec_step; simpl.
  destruct (dropped_ws c); [reflexivity|].
  destruct (Z.eqb c 10); reflexivity.
Qed.

Lemma filter_step_spec (ic : bool) (st : filter_state) (c : Z) :
  yielded (filter_step ic st c) = yielded st ++ fst (spec_step (prev_is_nl st) ic c) /\
  prev_is_nl (filter_step ic st c) = snd (spec_step (prev_is_nl st) ic c).
Proof.
  unfold filter_step, spec_step; rewrite mem_non_printable.
  destruct (dropped_ws c) eqn:Hd.
  - assert (Hn : Z.eqb c 10 = false) by (apply Z.eqb_neq; intros ->; discriminate Hd).
    rewrite Hn; simpl; split; [rewrite app_nil_r|]; reflexivity.
  - destruct (Z.eqb_spec c 10) as [->|Hn]; simpl.
    + unfold opt_neq, prev_is_nl.
      destruct (last_char st) as [d|] eqn:Hl.
      * rewrite (str_eqb_sym [10] d).
        destruct (str_eqb d [10]) eqn:Hdn; simpl.
        -- split; [rewrite app_nil_r; reflexivity | rewrite Hl; exact Hdn].
        -- split; reflexivity.
      * split; reflexivity.
    + unfold prev_is_nl; simpl; split; [reflexivity|].
      apply kept_not_nl; rewrite mem_non_printable, Hd; apply Z.eqb_neq; exact Hn.
Qed.

Lemma filter_fold_spec (ic : bool) (t : list Z) :
  forall st,
  yielded (fold_left (filter_step ic) t st)
  = yielded st ++ filter_spec_from (prev_is_nl st) ic t.
Proof.
  induction t as [|c r IH]; intros st; [simpl; rewrite app_nil_r; reflexivity|].
  cbn [fold_left]; rewrite IH, filter_spec_from_cons.
  destruct (filter_step_spec ic st c) as [Hy Hp].
  rewrite Hy, Hp, app_assoc; reflexivity.
Qed.

Lemma filter_run_spec (t : list Z) (ic : bool) :
  yielded (filter_run t ic) = filter_spec ic t.
Proof. unfold filter_run, filter_spec; rewrite filter_fold_spec; reflexivity. Qed.

Lemma filtered_spec (text : list Z) (ic : bool) :
  filtered text ic = filter_spec ic (read_text text).
Proof. apply filter_run_spec. Qed.

Lemma filter_first_none (ic : bool) (t : list Z) :
  forall st, (first_char st = None <-> yielded st = []) ->
  let st' := fold_left (filter_step ic) t st in
  (first_char st' = None <-> yielded st' = []).
Proof.
  induction t as [|c r IH]; intros st Hst; simpl; [exact Hst|].
  apply IH; unfold filter_step.
  destruct (negb (mem c non_printable)); simpl.
  - destruct (first_char st); split; intros H; try discriminate;
      destruct (yielded st); discriminate.
  - destruct (Z.eqb c 10 && opt_neq [c] (last_char st)); simpl; [|exact Hst].
    destruct (first_char st); split; intros H; try discriminate;
      destruct (yielded st); discriminate.
Qed.

Lemma next_character_shape (text : list Z) (ic : bool) :
  (filtered text ic = [] /\ next_character text ic = [None]) \/
  (exists x, filtered text ic <> [] /\
     next_character text ic = map Some (filtered text ic ++ [x])).
Proof.
  pose proof (filter_first_none ic (read_text text) (mkFS None None []) ltac:(simpl; tauto))
    as H.
  unfold next_character, filtered; fold (filter_run (read_text text) ic) in *.
  destruct (yielded (filter_run (read_text text) ic)) as [|y ys] eqn:Hy.
  - left; split; [reflexivity|]; simpl.
    rewrite (proj2 H Hy); reflexivity.
  - right; destruct (first_char (filter_run (read_text text) ic)) as [x|] eqn:Hf.
    + exists x; split; [discriminate|]; rewrite map_app; reflexivity.
    + exfalso; apply proj1 in H; specialize (H Hf); rewrite Hy in H; discriminate.
Qed.

Lemma filter_spec_from_length (ic : bool) (t : list Z) :
  forall p, (List.length (filter_spec_from p ic t) <= List.length t)%nat.
Proof.
  induction t as [|c r IH]; intros p; [simpl; lia|].
  rewrite filter_spec_from_cons; unfold spec_step.
  destruct (dropped_ws c); [simpl; specialize (IH p); lia|].
  pose proof (IH true); pose proof (IH false).
  destruct (Z.eqb c 10); [destruct p|]; simpl; lia.
Qed.

Lemma filter_spec_plain (ic : bool) (t : list Z) :
  forall p, Forall (fun c => mem c non_printable = false) t ->
  filter_spec_from p ic t = map (fun c => if ic then [c] else py_lower c) t.
Proof.
  induction t as [|c r IH]; intros p H; [reflexivity|].
  inversion H as [|? ? Hc Hr]; subst.
  rewrite mem_non_printable in Hc; apply orb_false_iff in Hc as [Hd Hn].
  rewrite filter_spec_from_cons; unfold spec_step; rewrite Hd, Hn; simpl.
  rewrite IH by exact Hr; reflexivity.
Qed.

(** What the generator yields satisfies [P] when a space, a newline and
    the value kept for each printable character of the text do. *)
Section Stream.

Variable P : list Z -> Prop.
Variable ic : bool.
Hypothesis Hspace : P [32].
Hypothesis Hnl : P [10].

Lemma filter_spec_from_ok (t : list Z) :
  (forall c, In c t -> mem c non_printable = false -> P (if ic then [c] else py_lower c)) ->
  forall p, Forall P (filter_spec_from p ic t).
Proof.
  induction t as [|c r IH]; intros Hk p; [constructor|].
  assert (Hr : forall d, In d r -> mem d non_printable = false ->
                 P (if ic then [d] else py_lower d))
    by (intros d Hd Hm; apply Hk; [right; exact Hd | exact Hm]).
  rewrite filter_spec_from_cons; unfold spec_step.
  destruct (dropped_ws c) eqn:Hd; [apply IH, Hr|].
  destruct (Z.eqb c 10) eqn:Hn; simpl.
  - destruct p; simpl; [|constructor; [exact Hspace|]]; apply IH, Hr.
  - constructor; [|apply IH, Hr].
    apply Hk; [left; reflexivity | rewrite mem_non_printable, Hd, Hn; reflexivity].
Qed.

Lemma first_char_ok (t : list Z) :
  (forall c, In c t -> mem c non_printable = false -> P (if ic then [c] else py_lower c)) ->
  forall st, (forall v, first_char st = Some v -> P v) ->
  forall v, first_char (fold_left (filter_step ic) t st) = Some v -> P v.
Proof.
  induction t as [|c r IH]; simpl; intros Hk st Hst; [exact Hst|].
  apply IH; [intros d Hd Hm; apply Hk; [right; exact Hd | exact Hm]|].
  intros v; unfold filter_step.
  destruct (mem c non_printable) eqn:Hm; simpl.
  - destruct (Z.eqb c 10 && opt_neq [c] (last_char st)) eqn:Hb; simpl; [|apply Hst].
    destruct (first_char st) eqn:Hf; [intros H; apply Hst; rewrite ?Hf; exact H|].
    intros H; injection H as <-.
    apply andb_true_iff in Hb as [Hn _]; apply Z.eqb_eq in Hn; subst c; exact Hnl.
  - destruct (first_char st) eqn:Hf; [intros H; apply Hst; rewrite ?Hf; exact H|].
    intros H; injection H as <-; apply Hk; [left; reflexivity | exact Hm].
Qed.

Lemma filtered_ok (text : list Z) :
  (forall c, In c (read_text text) -> mem c non_printable = false ->
     P (if ic then [c] else py_lower c)) ->
  Forall P (filtered text ic).
Proof. intros Hk; rewrite filtered_spec; apply filter_spec_from_ok, Hk. Qed.

Lemma stream_values (text : list Z) :
  (forall c, In c (read_text text) -> mem c non_printable = false ->
     P (if ic then [c] else py_lower c)) ->
  stream_pieces P (next_character text ic).
Proof.
  intros Hk v Hv; unfold next_character in Hv.
  apply in_app_or in Hv as [Hv|[Hv|[]]].
  - apply in_map_iff in Hv as [w [Hw Hin]]; injection Hw as ->.
    pose proof (filtered_ok text Hk) as H; rewrite Forall_forall in H; apply H, Hin.
  - unfold filter_run in Hv.
    apply (first_char_ok _ Hk (mkFS None None [])); [|exact Hv].
    intros w Hw; simpl in Hw; discriminate Hw.
Qed.

End Stream.

Lemma stream_nonempty (text : list Z) (ic : bool) :
  stream_pieces (fun v => v <> []) (next_character text ic).
Proof.
  apply stream_values; try discriminate.
  intros c _ _; destruct ic; [discriminate | apply py_lower_nonempty].
Qed.

Lemma stream_single (text : list Z) (ic : bool) :
  (ic = true \/ ~ In 304 text) ->
  stream_pieces (fun v => List.length v = 1%nat) (next_character text ic).
Proof.
  intros Hic; apply stream_values; try reflexivity.
  intros c Hc _; destruct ic; [reflexivity|].
  apply py_lower_single; intros ->.
  destruct Hic as [Hic|Hic]; [discriminate|].
  apply read_text_in in Hc as [Hc|Hc]; [exact (Hic Hc) | discriminate].
Qed.

Lemma stream_piece_ok (text : list Z) (ic : bool) :
  Forall (fun c => 0 <= c < 1114112) text ->
  stream_pieces piece_ok (next_character text ic).
Proof.
  intros Ht; rewrite Forall_forall in Ht.
  apply stream_values; [left; exists 32; split; [reflexivity | lia] |
                        left; exists 10; split; [reflexivity | lia] |].
  intros c Hc _.
  assert (Hr : 0 <= c < 1114112)
    by (apply read_text_in in Hc as [Hc| ->]; [exact (Ht c Hc) | lia]).
  destruct ic; [left; exists c; split; [reflexivity | exact Hr] | apply py_lower_piece, Hr].
Qed.

Lemma stream_lower (text : list Z) :
  stream_pieces (Forall (fun c => is_upper c = false)) (next_character text false).
Proof. apply stream_values; [repeat constructor | repeat constructor |]. intros c _ _; apply py_lower_not_upper. Qed.

Lemma filter_fold_first (ic : bool) (t : list Z) :
  forall st f, first_char st = Some f ->
  first_char (fold_left (filter_step ic) t st) = Some f /\
  exists ys, yielded (fold_left (filter_step ic) t st) = yielded st ++ ys.
Proof.
  induction t as [|x r IH]; simpl; intros st f Hf.
  - split; [exact Hf | exists []; rewrite app_nil_r; reflexivity].
  - assert (H1 : first_char (filter_step ic st x) = Some f /\
                 exists ys, yielded (filter_step ic st x) = yielded st ++ ys).
    { unfold filter_step; rewrite Hf.
      destruct (negb _); [simpl; split; [reflexivity | eexists; reflexivity]|].
      destruct (_ && _); simpl; (split; [reflexivity || exact Hf |]);
        [eexists; reflexivity | exists []; rewrite app_nil_r; reflexivity]. }
    destruct H1 as [Hf1 [ys1 Hy1]].
    destruct (IH _ _ Hf1) as [Hf2 [ys2 Hy2]].
    split; [exact Hf2|]; exists (ys1 ++ ys2); rewrite Hy2, Hy1, app_assoc; reflexivity.
Qed.

Lemma next_character_printable_start (c : Z) (r : list Z) (ic : bool) :
  mem c non_printable = false ->
  exists ys, next_character (c :: r) ic =
    Some (if ic then [c] else py_lower c) :: map Some (ys ++ [if ic then [c] else py_lower c]).
Proof.
  intros Hc; unfold next_character, filter_run.
  assert (Hr : read_text (c :: r) = c :: read_text r).
  { rewrite read_text_cons; destruct (Z.eqb_spec c 13) as [->|]; [discriminate Hc | reflexivity]. }
  rewrite Hr; cbn [fold_left].
  set (c' := if ic then [c] else py_lower c).
  assert (H0 : filter_step ic (mkFS None None []) c = mkFS (Some c') (Some c') [c'])
    by (unfold filter_step; rewrite Hc; reflexivity).
  rewrite H0.
  destruct (filter_fold_first ic (read_text r) (mkFS (Some c') (Some c') [c']) _ eq_refl)
    as [Hf [ys Hy]].
  rewrite Hf, Hy; exists ys; simpl; rewrite map_app; reflexivity.
Qed.

Lemma filter_step_nl_last (ic : bool) (st : filter_state) :
  last_char (filter_step ic st 10) = Some [10].
Proof.
  unfold filter_step; cbn [mem non_printable].
  rewrite non_printable_value; cbn [negb mem Z.eqb orb andb].
  destruct (last_char st) as [d|] eqn:Hl; cbn [opt_neq]; [|reflexivity].
  destruct (str_eqb_spec [10] d) as [<-|]; cbn [negb]; [exact Hl | reflexivity].
Qed.

Lemma filter_step_after_nl (ic : bool) (st : filter_state) :
  last_char st = Some [10] -> filter_step ic st 10 = st.
Proof.
  intros Hl; unfold filter_step; rewrite non_printable_value, Hl; reflexivity.
Qed.

Lemma filter_step_dropped (ic : bool) (st : filter_state) (x : Z) :
  In x [9; 13; 11; 12] -> filter_step ic st x = st.
Proof.
  intros Hx; unfold filter_step; rewrite non_printable_value.
  destruct Hx as [<-|[<-|[<-|[<-|[]]]]]; reflexivity.
Qed.
(** ** Rounding error of binary64 sums *)

Section Floats.
Local Open Scope Q_scope.

Lemma pow2_pos (k : Z) : 0 < pow2 k.
Proof. apply Qpower_0_lt; reflexivity. Qed.

Lemma pow2_add (a b : Z) : pow2 (a + b) == pow2 a * pow2 b.
Proof. unfold pow2; apply Qpower_plus; discriminate. Qed.

Lemma pow2_le (a b : Z) : (a <= b)%Z -> pow2 a <= pow2 b.
Proof. intros H; apply Qpower_le_compat_l; [exact H | discriminate]. Qed.

Lemma pow2_nonneg (a : Z) : (0 <= a)%Z -> pow2 a == inject_Z (2 ^ a).
Proof. intros H; unfold pow2; rewrite Zpower_Qpower by exact H; reflexivity. Qed.

Lemma pow2_frac_le (e c n : Z) (d : positive) :
  (0 <= c)%Z -> (0 <= e + c)%Z ->
  (pow2 e <= n # d <-> (2 ^ (e + c) * Zpos d <= n * 2 ^ c)%Z).
Proof.
  intros Hc Hec.
  pose proof (pow2_pos c) as Hp.
  rewrite <- (Qmult_le_r _ _ _ Hp).
  rewrite <- pow2_add, !pow2_nonneg by lia.
  unfold Qle, Qmult, inject_Z; simpl.
  rewrite Pos.mul_1_r; lia.
Qed.

Lemma pow2_frac_lt (e c n : Z) (d : positive) :
  (0 <= c)%Z -> (0 <= e + c)%Z ->
  (n # d < pow2 e <-> (n * 2 ^ c < 2 ^ (e + c) * Zpos d)%Z).
Proof.
  intros Hc Hec.
  pose proof (pow2_pos c) as Hp.
  rewrite <- (Qmult_lt_r _ _ _ Hp).
  rewrite <- pow2_add, !pow2_nonneg by lia.
  unfold Qlt, Qmult, inject_Z; simpl.
  rewrite Pos.mul_1_r; lia.
Qed.

Lemma flog2_spec (x : Q) :
  0 < x -> pow2 (flog2 x) <= x /\ x < pow2 (flog2 x + 1).
Proof.
  destruct x as [n d]; unfold Qlt; simpl; rewrite Z.mul_1_r; intros Hn.
  unfold flog2; cbn [Qnum Qden].
  set (a := Z.log2 n); set (b := Z.log2 (Zpos d)).
  destruct (Z.log2_spec n Hn) as [Ha1 Ha2].
  destruct (Z.log2_spec (Zpos d) ltac:(lia)) as [Hb1 Hb2].
  fold a in Ha1, Ha2; fold b in Hb1, Hb2.
  assert (Ha0 : (0 <= a)%Z) by apply Z.log2_nonneg.
  assert (Hb0 : (0 <= b)%Z) by apply Z.log2_nonneg.
  rewrite Z.pow_succ_r in Ha2, Hb2 by assumption.
  destruct (Z.leb_spec (Zpos d * 2 ^ a) (n * 2 ^ b)) as [Hc|Hc].
  - split.
    + apply (proj2 (pow2_frac_le (a - b) b n d ltac:(lia) ltac:(lia))).
      replace (a - b + b)%Z with a by lia; lia.
    + apply (proj2 (pow2_frac_lt (a - b + 1) b n d ltac:(lia) ltac:(lia))).
      replace (a - b + 1 + b)%Z with (Z.succ a) by lia.
      rewrite Z.pow_succ_r by lia.
      assert (0 < 2 ^ b)%Z by (apply Z.pow_pos_nonneg; lia).
      apply Z.lt_le_trans with (2 * 2 ^ a * 2 ^ b)%Z;
        [apply Z.mul_lt_mono_pos_r; lia | apply Z.mul_le_mono_nonneg_l; lia].
  - split.
    + apply (proj2 (pow2_frac_le (a - b - 1) (b + 1) n d ltac:(lia) ltac:(lia))).
      replace (a - b - 1 + (b + 1))%Z with a by lia.
      rewrite Z.pow_add_r by lia.
      assert (0 < 2 ^ a)%Z by (apply Z.pow_pos_nonneg; lia).
      change (2 ^ 1)%Z with 2%Z.
      apply Z.le_trans with (n * Zpos d)%Z;
        [apply Z.mul_le_mono_nonneg_r; lia | apply Z.mul_le_mono_nonneg_l; lia].
    + apply (proj2 (pow2_frac_lt (a - b - 1 + 1) b n d ltac:(lia) ltac:(lia))).
      replace (a - b - 1 + 1 + b)%Z with a by lia; lia.
Qed.

Lemma round_half_even_spec (y : Q) :
  - (1 # 2) <= inject_Z (round_half_even y) - y <= 1 # 2.
Proof.
  destruct y as [n d]; unfold round_half_even; cbn [Qnum Qden].
  set (D := Zpos d).
  pose proof (Z.div_mod n D ltac:(lia)) as Hdm.
  pose proof (Z.mod_pos_bound n D ltac:(lia)) as Hb.
  set (q := (n / D)%Z) in *; set (r := (n mod D)%Z) in *.
  assert (Hq : forall m : Z, (- (1 # 2) <= inject_Z m - (n # d) <= 1 # 2 <->
                (- D <= 2 * (m * D - n) <= D)%Z)).
  { intros m; unfold Qle, Qminus, Qplus, Qopp, inject_Z; cbn [Qnum Qden].
    rewrite ?Pos.mul_1_l, ?Pos.mul_1_r; subst D; split; intros [H1 H2]; split; lia. }
  destruct (Z.compare_spec (2 * r) D) as [E|E|E].
  - destruct (Z.even q); apply Hq; lia.
  - apply Hq; lia.
  - apply Hq; lia.
Qed.

Lemma round_half_even_ge1 (y : Q) : 1 <= y -> (1 <= round_half_even y)%Z.
Proof.
  destruct y as [n d]; unfold Qle, round_half_even; simpl; rewrite Z.mul_1_r; intros H.
  set (D := Zpos d).
  assert (Hq : (1 <= n / D)%Z) by (apply Z.div_le_lower_bound; lia).
  destruct (Z.compare _ _); [destruct (Z.even _)|..]; lia.
Qed.

Lemma Qabs_pos_eq (x : Q) : 0 <= x -> Qabs x = x.
Proof.
  destruct x as [n d]; unfold Qle; simpl; rewrite Z.mul_1_r; intros H.
  unfold Qabs; rewrite Z.abs_eq by exact H; reflexivity.
Qed.

Lemma round64_pos (x : Q) : 0 < x ->
  round64 x == inject_Z (round_half_even (x * pow2 (- rexp x))) * pow2 (rexp x).
Proof.
  intros Hx; unfold round64.
  destruct (Qeq_bool x 0) eqn:E.
  { apply Qeq_bool_iff in E; rewrite E in Hx; discriminate. }
  rewrite Qabs_pos_eq by (apply Qlt_le_weak, Hx).
  assert (Hle : Qle_bool 0 x = true) by (apply Qle_bool_iff, Qlt_le_weak, Hx).
  rewrite Hle, Qred_correct; reflexivity.
Qed.

Lemma round64_err (x : Q) : 0 < x ->
  - (pow2 (rexp x) * (1 # 2)) <= round64 x - x <= pow2 (rexp x) * (1 # 2).
Proof.
  intros Hx; rewrite round64_pos by exact Hx.
  set (k := rexp x).
  set (y := x * pow2 (- k)).
  assert (Hy : x == y * pow2 k).
  { subst y; rewrite <- Qmult_assoc, <- pow2_add.
    replace (- k + k)%Z with 0%Z by lia; unfold pow2; simpl; ring. }
  pose proof (round_half_even_spec y) as [H1 H2].
  set (m := inject_Z (round_half_even y)) in *.
  pose proof (pow2_pos k) as Hp.
  rewrite Hy.
  setoid_replace (m * pow2 k - y * pow2 k) with ((m - y) * pow2 k) by ring.
  split; nra.
Qed.

Lemma u53_pow2 : u53 == pow2 (-53).
Proof. reflexivity. Qed.

Lemma flog2_lower (y : Q) : pow2 (-1022) <= y -> (-1022 <= flog2 y)%Z.
Proof.
  intros Hy.
  assert (Hpos : 0 < y) by (apply Qlt_le_trans with (pow2 (-1022)); [apply pow2_pos | exact Hy]).
  destruct (flog2_spec y Hpos) as [_ H2].
  destruct (Z.le_gt_cases (-1022) (flog2 y)) as [H|H]; [exact H|].
  exfalso; assert (pow2 (flog2 y + 1) <= pow2 (-1022)) by (apply pow2_le; lia).
  apply (Qlt_not_le y (pow2 (-1022))); [apply Qlt_le_trans with (pow2 (flog2 y + 1)); assumption | exact Hy].
Qed.

Lemma round64_rel (y : Q) : pow2 (-1022) <= y ->
  - (u53 * y) <= round64 y - y <= u53 * y.
Proof.
  intros Hy.
  assert (Hpos : 0 < y) by (apply Qlt_le_trans with (pow2 (-1022)); [apply pow2_pos | exact Hy]).
  pose proof (flog2_lower y Hy) as Hf.
  destruct (flog2_spec y Hpos) as [H1 _].
  assert (Hr : rexp y = (flog2 y - 52)%Z) by (unfold rexp; lia).
  assert (Hh : pow2 (rexp y) * (1 # 2) == pow2 (flog2 y) * u53).
  { rewrite Hr, u53_pow2, <- pow2_add.
    replace (flog2 y - 52)%Z with (flog2 y + (-53) + 1)%Z by lia.
    rewrite !pow2_add; change (pow2 1) with (2 # 1); ring. }
  destruct (round64_err y Hpos) as [E1 E2].
  rewrite Hh in E1, E2.
  assert (Hu : 0 <= u53) by (unfold u53, Qle; simpl; lia).
  assert (pow2 (flog2 y) * u53 <= y * u53) by (apply Qmult_le_compat_r; assumption).
  split; lra.
Qed.

Lemma Qabs_le (x y : Q) : - y <= x <= y -> Qabs x <= y.
Proof. intros [H1 H2]; apply Qabs_Qle_condition; split; assumption. Qed.

Lemma Qabs_le_inv (x y : Q) : Qabs x <= y -> - y <= x <= y.
Proof. apply Qabs_Qle_condition. Qed.

Lemma u53_small : 0 < u53 /\ u53 <= 1 # 1000000.
Proof. split; [unfold Qlt; vm_compute; reflexivity | unfold Qle; vm_compute; discriminate]. Qed.

Lemma round64_pos_bounds (y : Q) : pow2 (-1022) <= y ->
  y * (1 - u53) <= round64 y /\ round64 y <= y * (1 + u53).
Proof. intros Hy; pose proof (round64_rel y Hy); split; lra. Qed.

Lemma of_exact_fin (y : Q) : 0 <= round64 y -> round64 y <= 16 -> of_exact y = Fin (round64 y).
Proof.
  intros H1 H2; unfold of_exact.
  destruct (Qle_bool (pow2 1024) (Qabs (round64 y))) eqn:E; [|reflexivity].
  exfalso; apply Qle_bool_iff in E.
  rewrite Qabs_pos in E by exact H1.
  assert (H16 : 16 < pow2 1024) by (unfold Qlt; vm_compute; reflexivity).
  lra.
Qed.

Lemma sumQ_nonneg (l : list Q) : Forall (fun q => 0 <= q) l -> 0 <= sumQ l.
Proof.
  induction l as [|x r IH]; simpl; intros H; [lra|].
  inversion H; subst; specialize (IH ltac:(assumption)); lra.
Qed.

Lemma pow2_m1022_pos : 0 < pow2 (-1022).
Proof. apply pow2_pos. Qed.

Lemma fl_fold_sum (B : Q) (HB : B <= 2) (l : list Q) :
  Forall (fun q => pow2 (-1022) <= q) l ->
  forall acc S c,
  0 <= acc -> 0 <= c -> 0 <= S -> S + sumQ l <= B ->
  (c + 2 * Qofnat (List.length l)) * u53 <= 1 ->
  Qabs (acc - S) <= c * u53 * B ->
  exists s, fold_left fl_add (map Fin l) (Fin acc) = Fin s /\ 0 <= s /\
    (pow2 (-1022) <= acc -> pow2 (-1022) <= s) /\
    Qabs (s - (S + sumQ l)) <= (c + 2 * Qofnat (List.length l)) * u53 * B.
Proof.
  pose proof pow2_m1022_pos as Hm.
  pose proof u53_small as [Hu0 Hu1].
  induction l as [|p r IH]; intros Hl acc S c Hacc Hc HS HSB Hcu He.
  - exists acc; cbn [map fold_left].
    split; [reflexivity|]; split; [exact Hacc|]; split.
    + intros H; exact H.
    + apply Qabs_le; apply Qabs_le_inv in He; unfold Qofnat, sumQ; simpl; change (inject_Z 0) with 0; lra.
  - inversion Hl as [|? ? Hp Hr]; subst.
    assert (Hsr : 0 <= sumQ r).
    { apply sumQ_nonneg; rewrite Forall_forall in Hr |- *; intros q Hq; specialize (Hr q Hq); lra. }
    simpl in HSB.
    assert (HlenS : Qofnat (List.length (p :: r)) == Qofnat (List.length r) + 1).
    { unfold Qofnat; simpl List.length; rewrite Nat2Z.inj_succ, <- Z.add_1_r, inject_Z_plus; reflexivity. }
    assert (Hcu2 : (c + 2 + 2 * Qofnat (List.length r)) * u53 <= 1).
    { setoid_replace ((c + 2 + 2 * Qofnat (List.length r)) * u53)
        with ((c + 2 * Qofnat (List.length (p :: r))) * u53); [exact Hcu|].
      rewrite HlenS; ring. }
    clear Hcu; rename Hcu2 into Hcu.
    set (y := acc + p).
    assert (Hyeq : y == acc + p) by reflexivity.
    assert (Hy : pow2 (-1022) <= y) by (subst y; lra).
    pose proof (round64_rel y Hy) as [R1 R2].
    apply Qabs_le_inv in He.
    assert (HB0 : 0 <= B) by lra.
    assert (Hn0 : 0 <= Qofnat (List.length r)) by (unfold Qofnat; change 0 with (inject_Z 0); rewrite <- Zle_Qle; lia).
    assert (Hcu' : c * u53 <= 1) by nra.
    assert (HcuB : c * u53 * B <= B) by nra.
    assert (Hy4 : y <= 4) by (subst y; lra).
    assert (Hacc' : 0 < round64 y) by nra.
    assert (Hfin : fl_add (Fin acc) (Fin p) = Fin (round64 y)).
    { unfold fl_add; apply of_exact_fin; [lra | nra]. }
    assert (He' : Qabs (round64 y - (S + p)) <= (c + 2) * u53 * B).
    { apply Qabs_le.
      assert (Hyb : y <= B + c * u53 * B) by (subst y; lra).
      assert (u53 * y <= u53 * (B + c * u53 * B)) by nra.
      assert (u53 * (c * u53 * B) <= u53 * B) by nra.
      split; lra. }
    destruct (IH Hr (round64 y) (S + p) (c + 2) ltac:(lra) ltac:(lra) ltac:(lra) ltac:(lra)
                ltac:(lra) He') as [s [Hs [Hs0 [Hspos Hsb]]]].
    exists s; cbn [map fold_left]; rewrite Hfin.
    split; [exact Hs|]; split; [exact Hs0|]; split.
    + intros Ha; apply Hspos.
      assert (Hy2 : 2 * pow2 (-1022) <= y) by (subst y; lra).
      assert (y * (1 - u53) <= round64 y) by (pose proof (round64_pos_bounds y Hy); tauto).
      nra.
    + setoid_replace (S + (p + sumQ r)) with (S + p + sumQ r) by ring.
      setoid_replace ((c + 2 * Qofnat (List.length (p :: r))) * u53 * B)
        with ((c + 2 + 2 * Qofnat (List.length r)) * u53 * B) by (rewrite HlenS; ring).
      exact Hsb.
Qed.

End Floats.

(** ** The count table built by [create_automaton] *)

Lemma incr_inner_ok (m : list (list Z * nat)) (c : list Z) :
  Forall (fun kv => (0 < snd kv)%nat) m ->
  incr_inner m c <> [] /\ Forall (fun kv => (0 < snd kv)%nat) (incr_inner m c).
Proof.
  induction m as [|[k v] r IH]; simpl; intros Hm.
  - split; [discriminate | constructor; simpl; [lia | constructor]].
  - inversion Hm as [|? ? Hv Hr]; subst.
    destruct (str_eqb k c).
    + split; [discriminate | constructor; simpl in *; [lia | exact Hr]].
    + split; [discriminate | constructor; [exact Hv | apply IH, Hr]].
Qed.

Lemma incr_ok (a : counts) (curr c : list Z) :
  counts_ok a -> counts_ok (incr a curr c).
Proof.
  unfold counts_ok; induction a as [|[k m] r IH]; simpl; intros Ha.
  - constructor; [simpl; split; [discriminate | constructor; simpl; [lia | constructor]]
                 | constructor].
  - inversion Ha as [|? ? [Hne Hm] Hr]; subst.
    destruct (str_eqb k curr).
    + constructor; [simpl; apply incr_inner_ok, Hm | exact Hr].
    + constructor; [split; assumption | apply IH, Hr].
Qed.

Lemma count_loop_ok (s : list (option (list Z))) :
  forall (a : counts) (curr : list Z) (c : counts),
  counts_ok a -> count_loop a curr s = Ok c -> counts_ok c.
Proof.
  induction s as [|[x|] r IH]; simpl; intros a curr c Ha H.
  - injection H as <-; exact Ha.
  - eapply IH; [apply incr_ok, Ha | exact H].
  - discriminate.
Qed.

Lemma incr_inner_sum (m : list (list Z * nat)) (c : list Z) :
  fold_right Nat.add O (map snd (incr_inner m c)) = S (fold_right Nat.add O (map snd m)).
Proof.
  induction m as [|[k v] r IH]; simpl; [reflexivity|].
  destruct (str_eqb k c); simpl; [reflexivity | rewrite IH; lia].
Qed.

Lemma incr_total (a : counts) (curr c : list Z) :
  total_counts (incr a curr c) = S (total_counts a).
Proof.
  induction a as [|[k m] r IH]; simpl; [reflexivity|].
  destruct (str_eqb k curr); simpl; [rewrite incr_inner_sum; lia | rewrite IH; lia].
Qed.

Lemma count_loop_total (s : list (option (list Z))) :
  forall a curr c, count_loop a curr s = Ok c ->
  (total_counts c <= total_counts a + List.length s)%nat.
Proof.
  induction s as [|[x|] r IH]; simpl; intros a curr c H.
  - injection H as <-; lia.
  - apply IH in H; rewrite incr_total in H; lia.
  - discriminate.
Qed.

Lemma incr_inner_keys_in (m : list (list Z * nat)) (c k : list Z) :
  In k (map fst (incr_inner m c)) -> In k (map fst m) \/ k = c.
Proof.
  induction m as [|[k' v] r IH]; simpl; [intros [->|[]]; right; reflexivity|].
  destruct (str_eqb_spec k' c) as [->|Hne]; simpl; [tauto|].
  intros [->|H]; [tauto|]; destruct (IH H); tauto.
Qed.

Lemma incr_inner_nodup (m : list (list Z * nat)) (c : list Z) :
  NoDup (map fst m) -> NoDup (map fst (incr_inner m c)).
Proof.
  induction m as [|[k v] r IH]; simpl; intros Hm; [repeat constructor; simpl; tauto|].
  inversion Hm as [|? ? Hk Hr]; subst.
  destruct (str_eqb_spec k c) as [->|Hne]; simpl; [exact Hm|].
  constructor; [|apply IH, Hr].
  intros Hin; apply incr_inner_keys_in in Hin as [Hin|Heq]; [contradiction | congruence].
Qed.

Lemma incr_keys_in (a : counts) (curr c k : list Z) :
  In k (map fst (incr a curr c)) -> In k (map fst a) \/ k = curr.
Proof.
  induction a as [|[k' m] r IH]; simpl; [intros [->|[]]; right; reflexivity|].
  destruct (str_eqb_spec k' curr) as [->|Hne]; simpl; [tauto|].
  intros [->|H]; [tauto|]; destruct (IH H); tauto.
Qed.

Lemma incr_keys_keep (a : counts) (curr c k : list Z) :
  In k (map fst a) -> In k (map fst (incr a curr c)).
Proof.
  induction a as [|[k' m] r IH]; simpl; [tauto|].
  destruct (str_eqb k' curr); simpl; [tauto|].
  intros [->|H]; [left; reflexivity | right; apply IH, H].
Qed.

Lemma incr_keys_new (a : counts) (curr c : list Z) :
  In curr (map fst (incr a curr c)).
Proof.
  induction a as [|[k' m] r IH]; simpl; [left; reflexivity|].
  destruct (str_eqb_spec k' curr) as [->|]; simpl; [left; reflexivity | right; exact IH].
Qed.

Lemma incr_nodup (a : counts) (curr c : list Z) :
  counts_nodup a -> counts_nodup (incr a curr c).
Proof.
  unfold counts_nodup; induction a as [|[k m] r IH]; simpl; intros [Hk Hm].
  - split; repeat constructor; simpl; tauto.
  - inversion Hk as [|? ? Hnk Hr]; subst; inversion Hm as [|? ? Hm1 Hmr]; subst.
    destruct (str_eqb_spec k curr) as [->|Hne]; simpl.
    + split; [exact Hk | constructor; [apply incr_inner_nodup, Hm1 | exact Hmr]].
    + destruct (IH (conj Hr Hmr)) as [H1 H2].
      split; [constructor; [|exact H1] | constructor; [exact Hm1 | exact H2]].
      intros Hin; apply incr_keys_in in Hin as [Hin|Heq]; [contradiction | congruence].
Qed.

Lemma count_loop_nodup (s : list (option (list Z))) :
  forall a curr c, counts_nodup a -> count_loop a curr s = Ok c -> counts_nodup c.
Proof.
  induction s as [|[x|] r IH]; simpl; intros a curr c Ha H.
  - injection H as <-; exact Ha.
  - eapply IH; [apply incr_nodup, Ha | exact H].
  - discriminate.
Qed.

Lemma count_loop_keys_keep (s : list (option (list Z))) :
  forall a curr c k, In k (map fst a) -> count_loop a curr s = Ok c -> In k (map fst c).
Proof.
  induction s as [|[x|] r IH]; simpl; intros a curr c k Hk H.
  - injection H as <-; exact Hk.
  - eapply IH; [apply incr_keys_keep, Hk | exact H].
  - discriminate.
Qed.

Lemma prime_suffix (k : nat) :
  forall curr s curr' rest, prime k curr s = Ok (curr', rest) ->
  exists pre, s = pre ++ rest.
Proof.
  induction k as [|k IH]; simpl; intros curr s curr' rest H.
  - injection H as <- <-; exists []; reflexivity.
  - destruct s as [|[c|] s']; try discriminate.
    destruct (IH _ _ _ _ H) as [pre ->]; exists (Some c :: pre); reflexivity.
Qed.

Lemma stream_pieces_app (P : list Z -> Prop) (s1 s2 : list (option (list Z))) :
  stream_pieces P (s1 ++ s2) -> stream_pieces P s2.
Proof. intros H v Hv; apply H, in_or_app; right; exact Hv. Qed.

Section Pieces.

Variable P : list Z -> Prop.

Lemma incr_inner_pieces (m : list (list Z * nat)) (c : list Z) :
  P c -> Forall (fun kv => P (fst kv)) m -> Forall (fun kv => P (fst kv)) (incr_inner m c).
Proof.
  intros Hc; induction m as [|[k v] r IH]; simpl; intros Hm; [repeat constructor; exact Hc|].
  inversion Hm; subst; destruct (str_eqb k c); constructor; auto.
Qed.

Lemma incr_pieces (a : counts) (curr c : list Z) :
  P c -> counts_pieces P a -> counts_pieces P (incr a curr c).
Proof.
  unfold counts_pieces; intros Hc; induction a as [|[k m] r IH]; simpl; intros Ha.
  - repeat constructor; exact Hc.
  - inversion Ha as [|? ? Hm Hr]; subst.
    destruct (str_eqb k curr); constructor; simpl; auto.
    apply incr_inner_pieces; assumption.
Qed.

Lemma count_loop_pieces (s : list (option (list Z))) :
  forall a curr c, stream_pieces P s -> counts_pieces P a ->
  count_loop a curr s = Ok c -> counts_pieces P c.
Proof.
  induction s as [|[x|] r IH]; simpl; intros a curr c Hs Ha H.
  - injection H as <-; exact Ha.
  - eapply IH; [| | exact H].
    + intros v Hv; apply Hs; right; exact Hv.
    + apply incr_pieces; [apply Hs; left; reflexivity | exact Ha].
  - discriminate.
Qed.

End Pieces.

Section Chars.

Variable Q : Z -> Prop.

Lemma incr_inner_chars (m : list (list Z * nat)) (c : list Z) :
  Forall Q c -> Forall (fun kv => Forall Q (fst kv)) m ->
  Forall (fun kv => Forall Q (fst kv)) (incr_inner m c).
Proof.
  intros Hc; induction m as [|[k v] r IH]; simpl; intros Hm; [repeat constructor; exact Hc|].
  inversion Hm; subst; destruct (str_eqb k c); constructor; auto.
Qed.

Lemma incr_chars (a : counts) (curr c : list Z) :
  Forall Q curr -> Forall Q c -> counts_chars Q a -> counts_chars Q (incr a curr c).
Proof.
  unfold counts_chars; intros Hcurr Hc; induction a as [|[k m] r IH]; simpl; intros Ha.
  - repeat constructor; simpl; assumption.
  - inversion Ha as [|? ? [Hk Hm] Hr]; subst.
    destruct (str_eqb k curr); constructor; simpl; auto.
    split; [exact Hk | apply incr_inner_chars; assumption].
Qed.

Lemma count_loop_chars (s : list (option (list Z))) :
  forall a curr c, stream_chars Q s -> Forall Q curr -> counts_chars Q a ->
  count_loop a curr s = Ok c -> counts_chars Q c.
Proof.
  induction s as [|[x|] r IH]; simpl; intros a curr c Hs Hcurr Ha H.
  - injection H as <-; exact Ha.
  - assert (Hx : Forall Q x) by (apply Hs; left; reflexivity).
    eapply IH; [intros v Hv; apply Hs; right; exact Hv | | | exact H].
    + apply Forall_app; split; [|exact Hx].
      destruct curr; simpl; [constructor | inversion Hcurr; assumption].
    + apply incr_chars; assumption.
  - discriminate.
Qed.

Lemma prime_chars (k : nat) :
  forall curr s curr' rest, stream_chars Q s -> Forall Q curr ->
  prime k curr s = Ok (curr', rest) -> Forall Q curr' /\ stream_chars Q rest.
Proof.
  induction k as [|k IH]; simpl; intros curr s curr' rest Hs Hc H.
  - injection H as <- <-; split; assumption.
  - destruct s as [|[x|] s']; try discriminate.
    eapply IH; [intros v Hv; apply Hs; right; exact Hv | | exact H].
    apply Forall_app; split; [exact Hc | apply Hs; left; reflexivity].
Qed.

End Chars.

Lemma create_automaton_inv (order : Z) (text : list Z) (ic : bool) (a : automaton) :
  create_automaton order text ic = Ok a ->
  exists curr rest c,
    prime (Z.to_nat order) [] (next_character text ic) = Ok (curr, rest) /\
    count_loop [] curr rest = Ok c /\ a = normalize_automaton c.
Proof.
  unfold create_automaton.
  destruct (prime _ _ _) as [[curr rest]|e] eqn:Hp; simpl; [|discriminate].
  destruct (count_loop [] curr rest) as [c|e] eqn:Hc; simpl; [|discriminate].
  intros H; injection H as <-.
  exists curr, rest, c; auto.
Qed.

Lemma normalize_in (c : counts) (k : list Z) (succ : list (list Z)) (probs : list float) :
  In (k, (succ, probs)) (normalize_automaton c) ->
  exists m, In (k, m) c /\ succ = map fst m /\
    probs = map (fun v => int_truediv v (sum_nat (map snd m))) (map snd m).
Proof.
  unfold normalize_automaton; intros Hin.
  apply in_map_iff in Hin as [[k' m] [He Hin]].
  injection He as <- <- <-; exists m; auto.
Qed.

Lemma normalize_keys (c : counts) : map fst (normalize_automaton c) = map fst c.
Proof.
  unfold normalize_automaton; rewrite map_map.
  apply map_ext; intros [k m]; reflexivity.
Qed.

Lemma next_character_length_le (text : list Z) (ic : bool) :
  (List.length (next_character text ic) <= S (List.length text))%nat.
Proof.
  unfold next_character; rewrite length_app, length_map; simpl.
  change (yielded (filter_run (read_text text) ic)) with (filtered text ic).
  rewrite filtered_spec; unfold filter_spec.
  pose proof (filter_spec_from_length ic (read_text text) false).
  pose proof (read_text_length text); lia.
Qed.

(** What [create_automaton] builds from a text: a count table with
    positive counts, no repeated key, every successor a value of the
    stream, and at most one count per value of the stream. *)
Lemma create_automaton_counts (order : Z) (text : list Z) (ic : bool) (a : automaton) :
  create_automaton order text ic = Ok a ->
  exists c, a = normalize_automaton c /\ counts_ok c /\ counts_nodup c /\
    (forall P, stream_pieces P (next_character text ic) -> counts_pieces P c) /\
    (total_counts c <= S (List.length text))%nat.
Proof.
  intros H; destruct (create_automaton_inv _ _ _ _ H) as [curr [rest [c [Hp [Hc ->]]]]].
  destruct (prime_suffix _ _ _ _ _ Hp) as [pre Hpre].
  exists c; split; [reflexivity|].
  split; [eapply count_loop_ok; [constructor | exact Hc]|].
  split; [eapply count_loop_nodup; [exact (conj (NoDup_nil (list Z)) (Forall_nil _) : counts_nodup []) | exact Hc]|].
  split.
  - intros P HP; eapply count_loop_pieces; [| constructor | exact Hc].
    rewrite Hpre in HP; eapply stream_pieces_app; exact HP.
  - apply count_loop_total in Hc; simpl in Hc.
    pose proof (next_character_length_le text ic) as Hl.
    rewrite Hpre, length_app in Hl; lia.
Qed.

(** Every character of every context and successor of a built automaton
    satisfies [Q] when every character of the stream does. *)
Lemma built_chars (Q : Z -> Prop) (order : Z) (text : list Z) (ic : bool) (a : automaton) :
  stream_chars Q (next_character text ic) ->
  create_automaton order text ic = Ok a ->
  forall k succ probs, In (k, (succ, probs)) a -> Forall Q k /\ Forall (Forall Q) succ.
Proof.
  intros Hs H; destruct (create_automaton_inv _ _ _ _ H) as [curr [rest [c [Hp [Hc ->]]]]].
  destruct (prime_chars Q _ _ _ _ _ Hs (Forall_nil Q) Hp) as [Hcurr Hrest].
  assert (Hcc : counts_chars Q c)
    by (eapply count_loop_chars; [exact Hrest | exact Hcurr | apply Forall_nil | exact Hc]).
  intros k succ probs Hin.
  destruct (normalize_in _ _ _ _ Hin) as [m [Hm [-> _]]].
  unfold counts_chars in Hcc; rewrite Forall_forall in Hcc.
  destruct (Hcc _ Hm) as [Hk Hms]; split; [exact Hk|].
  rewrite Forall_map; exact Hms.
Qed.


(** ** Lookups, [choices] and the walk *)

Lemma lookup_in {V} (k : list Z) (d : list (list Z * V)) (v : V) :
  lookup k d = Some v -> In (k, v) d.
Proof.
  induction d as [|[k' v'] r IH]; simpl; [discriminate|].
  destruct (str_eqb_spec k k') as [->|]; [intros H; injection H as ->; left; reflexivity|].
  intros H; right; apply IH, H.
Qed.

Lemma lookup_key {V} (k : list Z) (d : list (list Z * V)) :
  In k (map fst d) -> exists v, lookup k d = Some v.
Proof.
  induction d as [|[k' v'] r IH]; simpl; [tauto|].
  destruct (str_eqb_spec k k') as [->|Hne]; [eexists; reflexivity|].
  intros [->|H]; [congruence | apply IH, H].
Qed.

Lemma choices_in (pop : list (list Z)) (w : list float) (g g' : rng) (x : list Z) :
  choices pop w g = Ok (x, g') -> In x pop.
Proof.
  unfold choices.
  destruct (negb _); [discriminate|].
  destruct (last_opt _); [|discriminate].
  destruct (fl_le _ _); [discriminate|].
  destruct (negb _); [discriminate|].
  destruct (random_ g) as [r g1].
  destruct (nth_error pop _) eqn:Hn; [|discriminate].
  intros H; injection H as -> _.
  eapply nth_error_In; exact Hn.
Qed.

Lemma walk_pieces (a : automaton) (k : nat) :
  forall state g res st g', walk k a state g = Ok (res, st, g') ->
  List.length res = k /\
  Forall (fun x => exists k' succ probs, In (k', (succ, probs)) a /\ In x succ) res.
Proof.
  induction k as [|k IH]; simpl; intros state g res st g' H.
  - injection H as <- _ _; split; [reflexivity | constructor].
  - destruct (lookup state a) as [[succ probs]|] eqn:Hl; [|discriminate].
    destruct (choices succ probs g) as [[x g1]|e] eqn:Hc; simpl in H; [|discriminate].
    destruct (walk k a (tail_str state ++ x) g1) as [[[rest st1] g2]|e] eqn:Hw;
      simpl in H; [|discriminate].
    injection H as <- _ _.
    destruct (IH _ _ _ _ _ Hw) as [Hlen Hr].
    split; [simpl; rewrite Hlen; reflexivity|].
    constructor; [|exact Hr].
    exists state, succ, probs; split; [apply lookup_in, Hl | eapply choices_in; exact Hc].
Qed.

(** ** The probabilities of a built automaton *)

Lemma fold_left_add (l : list nat) (n : nat) :
  fold_left Nat.add l n = (n + fold_right Nat.add O l)%nat.
Proof.
  revert n; induction l as [|x r IH]; simpl; intros n; [lia|].
  rewrite IH; lia.
Qed.

Lemma entry_le_total (c : counts) (k : list Z) (m : list (list Z * nat)) :
  In (k, m) c -> (fold_right Nat.add O (map snd m) <= total_counts c)%nat.
Proof.
  induction c as [|[k' m'] r IH]; simpl; [tauto|].
  intros [He|Hin]; [injection He as <- <-; lia | specialize (IH Hin); lia].
Qed.

Lemma sum_positive (m : list (list Z * nat)) :
  m <> [] -> Forall (fun kv => (0 < snd kv)%nat) m ->
  (0 < fold_right Nat.add O (map snd m))%nat.
Proof.
  destruct m as [|[k v] r]; [congruence|]; simpl; intros _ H.
  inversion H; subst; simpl in *; lia.
Qed.

Lemma piece_index_bound (v : list Z) : piece_ok v -> (piece_index v < Z.to_nat 1114113)%nat.
Proof.
  intros [[c [-> Hc]]| ->]; simpl; lia.
Qed.

Lemma piece_index_inj (v w : list Z) :
  piece_ok v -> piece_ok w -> piece_index v = piece_index w -> v = w.
Proof.
  intros [[c [-> Hc]]| ->] [[d [-> Hd]]| ->]; simpl; intros H.
  - f_equal; lia.
  - lia.
  - lia.
  - reflexivity.
Qed.

(** A context has at most one successor per value the filter can yield:
    [0x110000] code points and ["i̇"]. *)
Lemma successors_bound (m : list (list Z * nat)) :
  NoDup (map fst m) -> Forall (fun kv => piece_ok (fst kv)) m ->
  Z.of_nat (List.length m) <= 1114113.
Proof.
  intros Hnd Hp.
  assert (Hp' : forall v, In v (map fst m) -> piece_ok v).
  { intros v Hv; apply in_map_iff in Hv as [kv [<- Hkv]].
    rewrite Forall_forall in Hp; apply Hp, Hkv. }
  assert (Hnd' : NoDup (map piece_index (map fst m))).
  { apply NoDup_map_NoDup_ForallPairs; [|exact Hnd].
    intros v w Hv Hw; apply piece_index_inj; apply Hp'; assumption. }
  assert (Hincl : incl (map piece_index (map fst m)) (seq 0 (Z.to_nat 1114113))).
  { intros i Hi; apply in_map_iff in Hi as [v [<- Hv]].
    apply in_seq; pose proof (piece_index_bound v (Hp' v Hv)); lia. }
  pose proof (NoDup_incl_length Hnd' Hincl) as H.
  rewrite !length_map, length_seq in H; lia.
Qed.

Section Entry.
Local Open Scope Q_scope.

Lemma qdiv_sum (l : list nat) (t : nat) :
  sumQ (map (fun v => qdiv v t) l) == qdiv (fold_right Nat.add O l) t.
Proof.
  unfold qdiv; induction l as [|x r IH]; simpl.
  - unfold Qdiv; rewrite Qmult_0_l; reflexivity.
  - rewrite IH, Nat2Z.inj_add, inject_Z_plus.
    unfold Qdiv; rewrite Qmult_plus_distr_l; reflexivity.
Qed.

Lemma qdiv_diag (t : nat) : (0 < t)%nat -> qdiv t t == 1.
Proof.
  intros Ht; unfold qdiv, Qdiv; apply Qmult_inv_r.
  intros H; unfold Qeq in H; simpl in H; lia.
Qed.

Lemma qdiv_lower (v t : nat) :
  (1 <= v)%nat -> (1 <= t)%nat -> (Z.of_nat t <= 2 ^ 1000)%Z -> pow2 (-1000) <= qdiv v t.
Proof.
  intros Hv Ht Hb; unfold qdiv.
  apply Qle_shift_div_l; [change 0 with (inject_Z 0); rewrite <- Zlt_Qlt; lia|].
  apply Qle_trans with (pow2 (-1000) * inject_Z (2 ^ 1000)).
  - apply Qmult_le_l; [apply pow2_pos | rewrite <- Zle_Qle; exact Hb].
  - setoid_replace (pow2 (-1000) * inject_Z (2 ^ 1000)) with 1 by reflexivity.
    change 1 with (inject_Z 1); rewrite <- Zle_Qle; lia.
Qed.

Lemma sum_round64 (l : list Q) : Forall (fun q => pow2 (-1022) <= q) l ->
  - (u53 * sumQ l) <= sumQ (map round64 l) - sumQ l <= u53 * sumQ l.
Proof.
  induction l as [|q r IH]; simpl; intros H; [lra|].
  inversion H as [|? ? Hq Hr]; subst.
  destruct (IH Hr) as [I1 I2]; destruct (round64_rel q Hq) as [R1 R2].
  split; lra.
Qed.

Lemma isclose_one (x tol : Q) : 0 <= tol -> Qabs (x - 1) <= tol -> isclose x 1 tol = true.
Proof.
  intros Ht Hx; unfold isclose; apply Qle_bool_iff.
  apply Qle_trans with tol; [exact Hx|].
  assert (H1 : 1 <= Qmax (Qabs x) (Qabs 1)) by apply Q.le_max_r.
  nra.
Qed.

End Entry.

(** The probabilities of one context of a built automaton: as many as
    the successors, at most [0x110001] of them, each a normal float, and
    their exact sum within one unit roundoff of 1. *)
Lemma built_entry_floats (order : Z) (text : list Z) (ic : bool) (a : automaton)
  (k : list Z) (succ : list (list Z)) (probs : list float) :
  Forall (fun c => 0 <= c < 1114112) text ->
  Z.of_nat (List.length text) < 2 ^ 1000 ->
  create_automaton order text ic = Ok a ->
  In (k, (succ, probs)) a ->
  List.length succ = List.length probs /\ succ <> [] /\
  Z.of_nat (List.length probs) <= 1114113 /\
  exists qs, probs = map Fin qs /\ Forall (fun q => (pow2 (-1022) <= q)%Q) qs /\
    (Qabs (sumQ qs - 1) <= u53)%Q.
Proof.
  intros Hchars Hlen Hbuilt Hin.
  destruct (create_automaton_counts _ _ _ _ Hbuilt) as [c [-> [Hok [[_ Hnd] [Hp Htot]]]]].
  specialize (Hp piece_ok (stream_piece_ok text ic Hchars)).
  destruct (normalize_in _ _ _ _ Hin) as [m [Hm [-> ->]]].
  unfold counts_ok in Hok; rewrite Forall_forall in Hok; destruct (Hok _ Hm) as [Hne Hpos].
  unfold counts_pieces in Hp; rewrite Forall_forall in Hp; specialize (Hp _ Hm).
  rewrite Forall_forall in Hnd; specialize (Hnd _ Hm); simpl in Hpos, Hne, Hp, Hnd.
  pose proof (entry_le_total _ _ _ Hm) as Hle.
  pose proof (sum_positive m Hne Hpos) as Ht.
  unfold sum_nat; rewrite fold_left_add; cbn [Nat.add].
  set (t := fold_right Nat.add O (map snd m)) in *.
  pose proof (successors_bound m Hnd Hp) as Hb.
  split; [rewrite !length_map; reflexivity|].
  split; [destruct m; [congruence | discriminate]|].
  split; [rewrite !length_map; exact Hb|].
  exists (map round64 (map (fun v => qdiv v t) (map snd m))).
  split; [unfold int_truediv; rewrite !map_map; reflexivity|].
  assert (Hq : Forall (fun q => (pow2 (-1000) <= q)%Q) (map (fun v => qdiv v t) (map snd m))).
  { rewrite Forall_forall; intros q Hq.
    apply in_map_iff in Hq as [v [<- Hv]].
    apply in_map_iff in Hv as [kv [<- Hkv]].
    rewrite Forall_forall in Hpos; specialize (Hpos _ Hkv).
    apply qdiv_lower; lia. }
  assert (Hq' : Forall (fun q => (pow2 (-1022) <= q)%Q) (map (fun v => qdiv v t) (map snd m))).
  { rewrite Forall_forall in Hq |- *; intros q Hin'; specialize (Hq q Hin').
    apply Qle_trans with (pow2 (-1000)); [apply pow2_le; lia | exact Hq]. }
  split.
  - rewrite Forall_forall in Hq |- *; intros r Hr.
    apply in_map_iff in Hr as [q [<- Hqin]].
    specialize (Hq q Hqin).
    assert (Hq1 : (pow2 (-1022) <= q)%Q)
      by (apply Qle_trans with (pow2 (-1000)); [apply pow2_le; lia | exact Hq]).
    destruct (round64_pos_bounds q Hq1) as [B1 _].
    assert (Hk : (pow2 (-1022) <= pow2 (-1000) * (1 - u53))%Q)
      by (unfold Qle; vm_compute; discriminate).
    pose proof u53_small as [U0 U1].
    apply Qle_trans with (pow2 (-1000) * (1 - u53))%Q; [exact Hk|].
    apply Qle_trans with (q * (1 - u53))%Q; [|exact B1].
    apply Qmult_le_compat_r; [exact Hq | lra].
  - destruct (sum_round64 _ Hq') as [S1 S2].
    rewrite qdiv_sum in S1, S2; fold t in S1, S2.
    rewrite (qdiv_diag t Ht) in S1, S2.
    apply Qabs_le; split; lra.
Qed.

(** ** Building blocks of the claims *)

Lemma dict_set_fresh (d : list (list Z * pyval)) (k : list Z) (v : pyval) :
  ~ In k (map fst d) -> dict_set d k v = d ++ [(k, v)].
Proof.
  induction d as [|[k' v'] r IH]; simpl; intros Hn; [reflexivity|].
  destruct (str_eqb_spec k k') as [->|Hne]; [exfalso; apply Hn; left; reflexivity|].
  rewrite IH; [reflexivity|]; intros H; apply Hn; right; exact H.
Qed.

Lemma loads_dumps_strs (s : list (list Z)) :
  loads (dumps (PList (map PStr s))) = PList (map PStr s).
Proof.
  simpl; f_equal; induction s as [|x r IH]; simpl; [reflexivity|]; rewrite IH; reflexivity.
Qed.

Lemma loads_dumps_floats (p : list float) :
  loads (dumps (PList (map PFloat p))) = PList (map PFloat p).
Proof.
  simpl; f_equal; induction p as [|x r IH]; simpl; [reflexivity|]; rewrite IH; reflexivity.
Qed.

Lemma loads_object (x : automaton) :
  forall d : list (list Z * pyval),
  NoDup (map fst d ++ map fst x) ->
  fold_left (fun d '(k, j) => dict_set d k (loads j))
    (map (fun '(k, v) => (k, dumps v))
       (map (fun '(k, (succ, probs)) =>
               (k, PTuple [PList (map PStr succ); PList (map PFloat probs)])) x)) d
  = d ++ map (fun '(k, (succ, probs)) =>
                (k, PList [PList (map PStr succ); PList (map PFloat probs)])) x.
Proof.
  induction x as [|[k [succ probs]] r IH]; simpl; intros d Hd.
  - rewrite app_nil_r; reflexivity.
  - rewrite dict_set_fresh.
    + rewrite IH.
      * rewrite <- app_assoc.
        change (dumps (PList (map PStr succ))) with (JArr (map dumps (map PStr succ))).
        simpl.
        pose proof (loads_dumps_strs succ) as Hs; pose proof (loads_dumps_floats probs) as Hp.
        simpl in Hs, Hp; rewrite Hs, Hp; reflexivity.
      * rewrite map_app, <- app_assoc; simpl; exact Hd.
    + apply NoDup_remove_2 in Hd; intros H; apply Hd, in_or_app; left; exact H.
Qed.

Lemma load_save_value (x : automaton) :
  NoDup (map fst x) -> import_automaton (save_automaton x) = automaton_as_loaded x.
Proof.
  intros Hkeys.
  unfold import_automaton, save_automaton, automaton_to_py, automaton_as_loaded.
  simpl; f_equal.
  apply (loads_object x []); exact Hkeys.
Qed.

(** Python's [==] between the loaded value and a non-empty automaton is
    [False]: the first key holds a list on one side, a tuple on the other. *)
Lemma py_eq_loaded_false (x : automaton) :
  x <> [] -> py_eq (automaton_as_loaded x) (automaton_to_py x) = false.
Proof.
  destruct x as [|[k [succ probs]] r]; [congruence|]; intros _.
  simpl; rewrite str_eqb_refl; simpl.
  apply andb_false_r.
Qed.



Lemma prime_short (l : list (list Z)) :
  forall (k : nat) (curr : list Z), (List.length l < k)%nat ->
  prime k curr (map Some l) = Err StopIteration.
Proof.
  induction l as [|x r IH]; intros k curr Hk; destruct k as [|k]; simpl in *; try lia.
  - reflexivity.
  - apply IH; lia.
Qed.

Lemma prime_exact (l : list (list Z)) :
  forall (curr : list Z), exists curr',
  prime (List.length l) curr (map Some l) = Ok (curr', []).
Proof.
  induction l as [|x r IH]; intros curr; simpl; [exists curr; reflexivity|].
  apply IH.
Qed.

Lemma incr_head (k : list Z) (m : list (list Z * nat)) (r : counts) (curr c : list Z) :
  exists m' r', incr ((k, m) :: r) curr c = (k, m') :: r'.
Proof.
  simpl; destruct (str_eqb k curr); eexists; eexists; reflexivity.
Qed.

Lemma count_loop_head (l : list (list Z)) :
  forall k m r curr, exists m' r',
  count_loop ((k, m) :: r) curr (map Some l) = Ok ((k, m') :: r').
Proof.
  induction l as [|x l' IH]; intros k m r curr; cbn [map count_loop].
  - exists m, r; reflexivity.
  - destruct (incr_head k m r curr x) as [m1 [r1 ->]].
    apply IH.
Qed.

(** * The claims *)

(** C1: in every automaton [create_automaton] builds from a text (of
    fewer than [2 ^ 1000] code points, each below [0x110000]), whatever
    the order, each context's successor list and probability list have
    the same length, every probability is a float greater than [0.0],
    and the probabilities sum to 1.0 within relative tolerance 1e-9:
    their exact sum, and the float Python's [sum()] returns, are both
    [isclose] to 1.0 with [rel_tol=1e-9].  The probabilities are the
    correctly rounded quotients [v / total_occ]. *)
Theorem built_automaton_distributions (order : Z) (text : list Z)
  (ignore_case : bool) (a : automaton)
  (Hchars : Forall (fun c => 0 <= c < 1114112) text)
  (Hlen : Z.of_nat (List.length text) < 2 ^ 1000)
  (Hbuilt : create_automaton order text ignore_case = Ok a) :
  forall k succ probs, In (k, (succ, probs)) a ->
  List.length succ = List.length probs /\
  Forall (fun p => fl_lt (Fin 0) p = true) probs /\
  (exists qs, probs = map Fin qs /\ isclose (sumQ qs) 1 (1 # 1000000000) = true) /\
  (exists s, py_sum probs = Fin s /\ isclose s 1 (1 # 1000000000) = true).
Proof.
  intros k succ probs Hin.
  destruct (built_entry_floats _ _ _ _ _ _ _ Hchars Hlen Hbuilt Hin)
    as [Hl [_ [Hn [qs [-> [Hq Hs]]]]]].
  pose proof u53_small as [U0 U1].
  pose proof pow2_m1022_pos as Hm.
  split; [exact Hl|].
  split.
  { rewrite Forall_map; rewrite Forall_forall in Hq |- *; intros q Hqin.
    pose proof (Hq q Hqin) as Hq1.
    unfold fl_lt; destruct (Qle_bool q 0) eqn:E; [|reflexivity].
    apply Qle_bool_iff in E; lra. }
  split.
  { exists qs; split; [reflexivity|]; apply isclose_one; [unfold Qle; simpl; lia|].
    apply Qle_trans with u53; [exact Hs | unfold Qle; vm_compute; discriminate]. }
  rewrite length_map in Hn.
  assert (Hn' : (Qofnat (List.length qs) <= 1114113)%Q).
  { unfold Qofnat; change 1114113%Q with (inject_Z 1114113); rewrite <- Zle_Qle; exact Hn. }
  assert (Hn0 : (0 <= Qofnat (List.length qs))%Q).
  { unfold Qofnat; change 0%Q with (inject_Z 0); rewrite <- Zle_Qle; lia. }
  apply Qabs_le_inv in Hs.
  assert (Hc : ((0 + 2 * Qofnat (List.length qs)) * u53 <= 1)%Q).
  { assert (H2 : (2 * 1114113 * u53 <= 1)%Q) by (unfold Qle; vm_compute; discriminate).
    nra. }
  assert (He0 : (Qabs (0 - 0) <= 0 * u53 * (1 + u53))%Q)
    by (unfold Qle; vm_compute; discriminate).
  destruct (fl_fold_sum (1 + u53) ltac:(lra) qs Hq 0 0 0 ltac:(lra) ltac:(lra) ltac:(lra)
              ltac:(lra) Hc He0) as [s [Hfold [_ [_ Hsb]]]].
  exists s; split; [exact Hfold|].
  apply isclose_one; [unfold Qle; simpl; lia|].
  apply Qabs_le_inv in Hsb.
  assert (H3 : ((0 + 2 * Qofnat (List.length qs)) * u53 * (1 + u53)
                <= 2 * 1114113 * u53 * (1 + u53))%Q) by nra.
  assert (H4 : (2 * 1114113 * u53 * (1 + u53) + u53 <= 1 # 1000000000)%Q)
    by (unfold Qle; vm_compute; discriminate).
  apply Qabs_le; split; lra.
Qed.

Lemma built_automaton_distributions_witness :
  Forall (fun c => 0 <= c < 1114112) (of_ascii "abac") /\
  Z.of_nat (List.length (of_ascii "abac")) < 2 ^ 1000 /\
  create_automaton 1 (of_ascii "abac") false
  = Ok [([97], ([[98]; [99]], [Fin (1 # 2); Fin (1 # 2)]));
        ([98], ([[97]], [Fin 1])); ([99], ([[97]], [Fin 1]))] /\
  (List.length [[98]; [99]] = List.length [Fin (1 # 2); Fin (1 # 2)] /\
   Forall (fun p => fl_lt (Fin 0) p = true) [Fin (1 # 2); Fin (1 # 2)] /\
   (exists qs, [Fin (1 # 2); Fin (1 # 2)] = map Fin qs /\
      isclose (sumQ qs) 1 (1 # 1000000000) = true) /\
   (exists s, py_sum [Fin (1 # 2); Fin (1 # 2)] = Fin s /\
      isclose s 1 (1 # 1000000000) = true)).
Proof.
  assert (Hc : Forall (fun c => 0 <= c < 1114112) (of_ascii "abac"))
    by (apply Forall_forall; intros c Hc; simpl in Hc; lia).
  assert (Hl : Z.of_nat (List.length (of_ascii "abac")) < 2 ^ 1000)
    by (vm_compute; reflexivity).
  assert (Hb : create_automaton 1 (of_ascii "abac") false
    = Ok [([97], ([[98]; [99]], [Fin (1 # 2); Fin (1 # 2)]));
          ([98], ([[97]], [Fin 1])); ([99], ([[97]], [Fin 1]))])
    by (vm_compute; reflexivity).
  split; [exact Hc | split; [exact Hl | split; [exact Hb |]]].
  apply (built_automaton_distributions 1 (of_ascii "abac") false _ Hc Hl Hb [97]).
  left; reflexivity.
Defined.

(** C2 (amended): for an automaton with distinct context keys, loading
    what [save_automaton] wrote gives the same keys in the same order,
    each with exactly the original successors and probabilities, but as
    the list [[successors, probabilities]] where the automaton holds a
    tuple; so Python's [load(save(x)) == x] is [False] for every
    non-empty automaton, and [True] only for the empty one. *)
Theorem load_save_automaton (x : automaton) (Hkeys : NoDup (map fst x)) :
  import_automaton (save_automaton x) = automaton_as_loaded x /\
  py_eq (import_automaton (save_automaton x)) (automaton_to_py x)
  = match x with [] => true | _ :: _ => false end.
Proof.
  rewrite (load_save_value x Hkeys); split; [reflexivity|].
  destruct x as [|e r]; [reflexivity|].
  apply py_eq_loaded_false; discriminate.
Qed.

Lemma load_save_automaton_witness :
  NoDup (map fst [([97], ([[98]], [Fin 1]))]) /\
  import_automaton (save_automaton [([97], ([[98]], [Fin 1]))])
  = automaton_as_loaded [([97], ([[98]], [Fin 1]))] /\
  py_eq (import_automaton (save_automaton [([97], ([[98]], [Fin 1]))]))
        (automaton_to_py [([97], ([[98]], [Fin 1]))]) = false.
Proof.
  assert (Hk : NoDup (map fst [([97], ([[98]], [Fin 1]))]))
    by (repeat constructor; simpl; tauto).
  split; [exact Hk|].
  exact (load_save_automaton [([97], ([[98]], [Fin 1]))] Hk).
Defined.

(** C2 counterexample: for the automaton built from ["ab"] with order 1,
    the loaded value is not [==] to the saved automaton in Python. *)
Lemma load_save_not_equal :
  create_automaton 1 (of_ascii "ab") false
  = Ok [([97], ([[98]], [Fin 1])); ([98], ([[97]], [Fin 1]))] /\
  py_eq (import_automaton (save_automaton
           [([97], ([[98]], [Fin 1])); ([98], ([[97]], [Fin 1]))]))
        (automaton_to_py [([97], ([[98]], [Fin 1])); ([98], ([[97]], [Fin 1]))])
  = false.
Proof. split; vm_compute; reflexivity. Qed.

(** C3 (amended): with an integer seed, two calls of [generate] with the
    same arguments on the same file content return the same result. *)
Theorem generate_deterministic (mt_draws : Z -> nat -> Q) (length order s : Z)
  (export raw ignore_case : bool) (e1 e2 : env)
  (Htext : env_text e1 = env_text e2) (Hmodel : env_model e1 = env_model e2) :
  generate mt_draws length order (Some s) export raw ignore_case e1
  = generate mt_draws length order (Some s) export raw ignore_case e2.
Proof.
  unfold generate, seed_rng; rewrite Htext, Hmodel; reflexivity.
Qed.

Lemma generate_deterministic_witness :
  env_text (mkEnv (of_ascii "abac") [] (fun _ => 0%Q))
  = env_text (mkEnv (of_ascii "abac") [] (fun _ => 3 # 4)) /\
  generate (fun _ _ => 0%Q) 5 1 (Some 7) false true false
    (mkEnv (of_ascii "abac") [] (fun _ => 0%Q))
  = generate (fun _ _ => 0%Q) 5 1 (Some 7) false true false
    (mkEnv (of_ascii "abac") [] (fun _ => 3 # 4)).
Proof.
  split; [reflexivity|].
  apply generate_deterministic; reflexivity.
Defined.

(** C3 counterexample: without a seed, [random.seed(None)] takes its state
    from the operating system, and two calls with identical arguments on
    the training text ["abac"] return ["b"] and ["c"]. *)
Lemma generate_unseeded_differs :
  generate (fun _ _ => 0%Q) 1 1 None false true false
    (mkEnv (of_ascii "abac") [] (fun _ => 0%Q)) = Ok (of_ascii "b") /\
  generate (fun _ _ => 0%Q) 1 1 None false true false
    (mkEnv (of_ascii "abac") [] (fun _ => 3 # 4)) = Ok (of_ascii "c").
Proof. split; vm_compute; reflexivity. Qed.




(** C5 (amended): when the context the walk has reached has no entry in
    the automaton, the next iteration raises an uncaught [KeyError]; there
    is no [UnknownContextError] and no fallback. *)
Theorem walk_unknown_context (k : nat) (a : automaton) (state : list Z) (g : rng)
  (Hmissing : lookup state a = None) :
  walk (S k) a state g = Err KeyError.
Proof. simpl; rewrite Hmissing; reflexivity. Qed.

Lemma walk_unknown_context_witness :
  lookup [98; 97] [([97; 97], ([[98]], [Fin 1])); ([97; 98], ([[97]], [Fin 1]))] = None /\
  walk 1 [([97; 97], ([[98]], [Fin 1])); ([97; 98], ([[97]], [Fin 1]))] [98; 97]
    (mkRng (fun _ => 0%Q) 0) = Err KeyError.
Proof.
  split; [reflexivity|].
  apply walk_unknown_context; reflexivity.
Defined.

(** C5 counterexample: the text ["aab"] with order 2 has the contexts
    ["aa"] and ["ab"]; the walk moves to ["ba"] and [generate] with
    length 3 fails with [KeyError]. *)
Lemma generate_unknown_context_crash :
  create_automaton 2 (of_ascii "aab") false
  = Ok [([97; 97], ([[98]], [Fin 1])); ([97; 98], ([[97]], [Fin 1]))] /\
  generate (fun _ _ => 0%Q) 3 2 (Some 0) false true false
    (mkEnv (of_ascii "aab") [] (fun _ => 0%Q)) = Err KeyError.
Proof. split; vm_compute; reflexivity. Qed.

(** C6 (code defect): with order 1, a text that starts with a newline
    makes the filter end with the sentinel ["\n"] although it yielded
    [" "] first; ["\n"] becomes a successor that is not a context, and the
    walk fails with [KeyError] at length 3. *)
Theorem order1_newline_start_unknown_context :
  create_automaton 1 [10; 97] false
  = Ok [([32], ([[97]], [Fin 1])); ([97], ([[10]], [Fin 1]))] /\
  lookup [10] [([32], ([[97]], [Fin 1])); ([97], ([[10]], [Fin 1]))] = None /\
  generate (fun _ _ => 0%Q) 3 1 (Some 0) false true false
    (mkEnv [10; 97] [] (fun _ => 0%Q)) = Err KeyError.
Proof. split; [|split]; vm_compute; reflexivity. Qed.

(** C7 (amended): everything [next_character] yields before its final
    value is [filter_spec] applied to the text after the translation of
    line ends: tab, carriage return, vertical tab and form feed are
    dropped; a newline becomes one space unless the last character not so
    dropped was a newline, in which case it is dropped; every other
    character passes, as its [str.lower()] unless [ignore_case]. *)
Theorem next_character_filter (text : list Z) (ignore_case : bool) :
  exists sentinel,
  next_character text ignore_case
  = map Some (filter_spec ignore_case (read_text text)) ++ [sentinel].
Proof.
  unfold next_character; rewrite filter_run_spec; eexists; reflexivity.
Qed.

(** C7 counterexample: the control character NUL is not dropped; a lone
    carriage return is read as a newline and yields a space; and ["İ"]
    (U+0130) passes as the two characters of its [str.lower()]. *)
Lemma filter_keeps_nul_reads_cr :
  next_character [0; 65] false = [Some [0]; Some [97]; Some [0]] /\
  next_character (of_ascii "a" ++ 13 :: of_ascii "B") false
  = [Some [97]; Some [32]; Some [98]; Some [97]] /\
  next_character [304] false = [Some [105; 775]; Some [105; 775]].
Proof. repeat split; vm_compute; reflexivity. Qed.

(** C8 (code defect): on the text ["\na"] the filter yields [" "] first,
    but its final value is ["\n"]: the newline branch records the input
    character instead of the space it yields. *)
Theorem sentinel_after_leading_newline :
  next_character [10; 97] false = [Some [32]; Some [97]; Some [10]] /\
  [32] <> [10].
Proof. split; [vm_compute; reflexivity | discriminate]. Qed.

(** C9 (amended): there is no [InvalidParameterError].  With [order <= 0]
    [create_automaton] succeeds on any text with at least one filtered
    character, the empty string being its first context; and [generate]
    with [length <= 0] returns the empty string whenever the automaton it
    uses is non-empty. *)
Theorem no_invalid_parameter_error (mt_draws : Z -> nat -> Q) (order length : Z)
  (seed : option Z) (export raw ignore_case : bool) (e : env)
  (Hlength : length <= 0) :
  (order <= 0 -> filtered (env_text e) ignore_case <> [] ->
   exists v a, create_automaton order (env_text e) ignore_case = Ok (([], v) :: a)) /\
  ((exists k v a, (if raw then create_automaton order (env_text e) ignore_case
                   else Ok (env_model e)) = Ok ((k, v) :: a)) ->
   generate mt_draws length order seed export raw ignore_case e = Ok []).
Proof.
  split.
  - intros Horder Hne.
    unfold create_automaton.
    replace (Z.to_nat order) with O by lia.
    destruct (next_character_shape (env_text e) ignore_case)
      as [[Hy _] | [x [_ Hs]]]; [contradiction|].
    rewrite Hs; simpl.
    destruct (filtered (env_text e) ignore_case) as [|y ys]; [contradiction|].
    simpl.
    destruct (count_loop_head (ys ++ [x]) [] [(y, 1%nat)] [] y) as [m' [r' Hc]].
    rewrite Hc; simpl.
    eexists; eexists; reflexivity.
  - intros [k [v [a Ha]]].
    unfold generate; rewrite Ha; simpl.
    replace (Z.to_nat length) with O by lia; reflexivity.
Qed.

Lemma no_invalid_parameter_error_witness :
  -1 <= 0 /\
  create_automaton 0 (of_ascii "ab") false
  = Ok [([], ([[97]], [Fin 1])); ([97], ([[98]], [Fin 1])); ([98], ([[97]], [Fin 1]))] /\
  generate (fun _ _ => 0%Q) (-1) 0 (Some 0) false true false
    (mkEnv (of_ascii "ab") [] (fun _ => 0%Q)) = Ok [].
Proof.
  split; [lia|].
  split; [vm_compute; reflexivity|].
  apply (proj2 (no_invalid_parameter_error (fun _ _ => 0%Q) 0 (-1) (Some 0) false true false
           (mkEnv (of_ascii "ab") [] (fun _ => 0%Q)) ltac:(lia))).
  exists [], ([[97]], [Fin 1]).
  eexists; vm_compute; reflexivity.
Defined.

(** C9 counterexample: order 0 and length -1 raise nothing. *)
Lemma invalid_parameters_accepted :
  create_automaton 0 (of_ascii "ab") false
  = Ok [([], ([[97]], [Fin 1])); ([97], ([[98]], [Fin 1])); ([98], ([[97]], [Fin 1]))] /\
  generate (fun _ _ => 0%Q) (-1) 0 (Some 0) false true false
    (mkEnv (of_ascii "ab") [] (fun _ => 0%Q)) = Ok [].
Proof. split; vm_compute; reflexivity. Qed.

(** C10 (amended): there is no [InsufficientDataError].  For [order >= 1]
    and [n] values yielded by the filter: with [n = 0] construction raises
    [TypeError] (the [None] sentinel is added to the context); with
    [0 < n] and [n + 1 < order] it raises [StopIteration]; with
    [0 < n] and [n + 1 = order] it returns the empty automaton. *)
Theorem create_automaton_short_text (order : Z) (text : list Z)
  (ignore_case : bool) (Horder : 1 <= order) :
  let n := List.length (filtered text ignore_case) in
  (n = O -> create_automaton order text ignore_case = Err TypeError) /\
  ((0 < n)%nat -> (n + 1 < Z.to_nat order)%nat ->
   create_automaton order text ignore_case = Err StopIteration) /\
  ((0 < n)%nat -> (n + 1)%nat = Z.to_nat order ->
   create_automaton order text ignore_case = Ok []).
Proof.
  intros n; unfold create_automaton.
  destruct (next_character_shape text ignore_case) as [[Hy Hs] | [x [Hne Hs]]];
    rewrite Hs; subst n.
  - rewrite Hy; simpl; repeat split; try (intros; lia).
    intros _; destruct (Z.to_nat order) eqn:Ho; [lia | reflexivity].
  - repeat split.
    + intros H0; destruct (filtered text ignore_case); [contradiction | simpl in H0; discriminate].
    + intros _ Hlt.
      rewrite prime_short; [reflexivity|].
      rewrite length_app; simpl; exact Hlt.
    + intros _ Heq.
      set (l := filtered text ignore_case ++ [x]).
      replace (Z.to_nat order) with (List.length l)
        by (subst l; rewrite length_app; simpl; exact Heq).
      destruct (prime_exact l []) as [curr' Hp].
      rewrite Hp; reflexivity.
Qed.

Lemma create_automaton_short_text_witness :
  1 <= 2 /\ create_automaton 2 (of_ascii "a") false = Ok [].
Proof.
  split; [lia|].
  apply (proj2 (proj2 (create_automaton_short_text 2 (of_ascii "a") false
                         ltac:(lia)))); vm_compute; reflexivity.
Defined.

(** C10 counterexample: the empty text with order 1 raises [TypeError],
    and the text ["a"] with order 2 (one character, fewer than the order)
    builds the empty automaton without any error. *)
Lemma short_text_no_insufficient_data_error :
  create_automaton 1 [] false = Err TypeError /\
  create_automaton 2 (of_ascii "a") false = Ok [].
Proof. split; vm_compute; reflexivity. Qed.

(** ** Building blocks of further properties *)

Lemma forall_concat {A} (P : A -> Prop) (l : list (list A)) :
  Forall (Forall P) l -> Forall P (List.concat l).
Proof.
  induction 1 as [|v r Hv _ IH]; simpl; [constructor|].
  apply Forall_app; split; assumption.
Qed.

Lemma concat_map_fixed (f : Z -> list Z) (ys : list Z) :
  Forall (fun d => f d = [d]) ys -> List.concat (map f ys) = ys.
Proof.
  induction 1 as [|d r Hd _ IH]; simpl; [reflexivity|].
  rewrite Hd, IH; reflexivity.
Qed.

Lemma filtered_printable (text : list Z) (ic : bool) :
  Forall (Forall (fun c => mem c non_printable = false)) (filtered text ic).
Proof.
  apply filtered_ok; [constructor; [reflexivity | constructor]|].
  intros c _ Hc; destruct ic; [constructor; [exact Hc | constructor]|].
  apply py_lower_keeps_printable, Hc.
Qed.

Lemma printable_no_cr (ys : list Z) :
  Forall (fun c => mem c non_printable = false) ys -> ~ In 13 ys.
Proof.
  intros Hp H13; rewrite Forall_forall in Hp; specialize (Hp 13 H13).
  vm_compute in Hp; discriminate Hp.
Qed.

Lemma filtered_fixed (text : list Z) (ic : bool) :
  Forall (fun d => (if ic then [d] else py_lower d) = [d]) (List.concat (filtered text ic)).
Proof.
  destruct ic; [rewrite Forall_forall; reflexivity|].
  apply forall_concat, filtered_ok; [constructor; [reflexivity | constructor]|].
  intros c _ _; apply py_lower_fixed.
Qed.

(** The values of the final [yield] of [next_character]. *)
Lemma next_character_last (text : list Z) (ic : bool) (d : option (list Z)) :
  last (next_character text ic) d = first_char (filter_run (read_text text) ic).
Proof. unfold next_character; apply last_last. Qed.

Lemma prime_length (k : nat) :
  forall curr s curr' rest,
  stream_pieces (fun v => List.length v = 1%nat) s ->
  prime k curr s = Ok (curr', rest) ->
  List.length curr' = (List.length curr + k)%nat /\
  stream_pieces (fun v => List.length v = 1%nat) rest.
Proof.
  induction k as [|k IH]; simpl; intros curr s curr' rest Hs H.
  - injection H as <- <-; split; [lia | exact Hs].
  - destruct s as [|[v|] s']; try discriminate.
    destruct (IH _ _ _ _ (fun w Hw => Hs w (or_intror Hw)) H) as [Hl Hr].
    split; [|exact Hr].
    rewrite Hl, length_app, (Hs v (or_introl eq_refl)); lia.
Qed.

Lemma incr_key_length (n : nat) (a : counts) (curr x : list Z) :
  List.length curr = n ->
  Forall (fun e => List.length (fst e) = n) a ->
  Forall (fun e => List.length (fst e) = n) (incr a curr x).
Proof.
  intros Hc; induction a as [|[k m] r IH]; simpl; intros Ha.
  - constructor; [exact Hc | constructor].
  - inversion Ha as [|? ? Hk Hr]; subst.
    destruct (str_eqb k curr); constructor; try assumption.
    apply IH, Hr.
Qed.

Lemma count_loop_key_length (n : nat) (s : list (option (list Z))) :
  forall a curr c,
  stream_pieces (fun v => List.length v = 1%nat) s ->
  List.length curr = S n ->
  Forall (fun e => List.length (fst e) = S n) a ->
  count_loop a curr s = Ok c ->
  Forall (fun e => List.length (fst e) = S n) c.
Proof.
  induction s as [|[v|] s IH]; simpl; intros a curr c Hs Hc Ha H; try discriminate.
  - injection H as <-; exact Ha.
  - assert (Hc' : List.length (tail_str curr ++ v) = S n).
    { unfold tail_str; rewrite length_app, (Hs v (or_introl eq_refl)).
      destruct curr as [|d r]; simpl in *; lia. }
    exact (IH _ _ _ (fun w Hw => Hs w (or_intror Hw)) Hc' (incr_key_length _ a curr v Hc Ha) H).
Qed.

(** A property of every character of the stream holds of every character
    [generate] returns from a text. *)
Lemma generate_raw_chars (R : Z -> Prop) (mt_draws : Z -> nat -> Q)
  (length order : Z) (seed : option Z) (export ic : bool) (e : env) (s : list Z) :
  stream_chars R (next_character (env_text e) ic) ->
  generate mt_draws length order seed export true ic e = Ok s -> Forall R s.
Proof.
  intros Hs; unfold generate; cbn [bind].
  destruct (create_automaton order (env_text e) ic) as [a|err] eqn:Hc; cbn [bind];
    [|discriminate].
  destruct a as [|[k0 v0] a']; cbn [bind]; [discriminate|].
  destruct (walk _ _ _ _) as [[[res st] g']|err] eqn:Hw; cbn [bind]; [|discriminate].
  intros H; injection H as <-.
  destruct (walk_pieces _ _ _ _ _ _ _ Hw) as [_ Hr].
  apply forall_concat; rewrite Forall_forall in Hr |- *; intros x Hx.
  destruct (Hr x Hx) as [k' [succ [probs [Hin Hxs]]]].
  destruct (built_chars R _ _ _ _ Hs Hc k' succ probs Hin) as [_ Hsu].
  rewrite Forall_forall in Hsu; apply Hsu, Hxs.
Qed.

Lemma count_loop_empty_key (s : list (option (list Z))) :
  forall a curr c m,
  stream_pieces (fun v => v <> []) s -> curr <> [] ->
  count_loop a curr s = Ok c -> count_loop (([], m) :: a) curr s = Ok (([], m) :: c).
Proof.
  induction s as [|[v|] s IH]; intros a curr c m Hs Hcurr H; simpl in H |- *;
    try discriminate.
  - injection H as <-; reflexivity.
  - destruct curr as [|d r]; [congruence|]; simpl.
    apply IH; [intros w Hw; apply Hs; right; exact Hw | | exact H].
    assert (Hv : v <> []) by (apply Hs; left; reflexivity).
    destruct r, v; simpl; congruence.
Qed.

Lemma int_truediv_one : int_truediv 1 1 = Fin 1.
Proof. vm_compute; reflexivity. Qed.

Lemma normalize_empty_key (s1 : list Z) (c : counts) :
  normalize_automaton (([], [(s1, 1%nat)]) :: c)
  = ([], ([s1], [Fin 1])) :: normalize_automaton c.
Proof.
  unfold normalize_automaton; cbn [map fst snd].
  change (sum_nat [1%nat]) with 1%nat; rewrite int_truediv_one; reflexivity.
Qed.

(** The filter on a text and on the text with a part rearranged. *)
Lemma fold_double_nl (ic : bool) (T U : list Z) (st : filter_state) :
  fold_left (filter_step ic) (T ++ 10 :: 10 :: U) st
  = fold_left (filter_step ic) (T ++ 10 :: U) st.
Proof.
  rewrite !fold_left_app; cbn [fold_left].
  rewrite (filter_step_after_nl ic _ (filter_step_nl_last _ _)); reflexivity.
Qed.

Lemma fold_dropped (ic : bool) (x : Z) (T U : list Z) (st : filter_state) :
  In x [9; 13; 11; 12] ->
  fold_left (filter_step ic) (T ++ x :: U) st = fold_left (filter_step ic) (T ++ U) st.
Proof.
  intros Hx; rewrite !fold_left_app; cbn [fold_left].
  rewrite (filter_step_dropped _ _ _ Hx); reflexivity.
Qed.

Lemma fold_nl_dropped_nl (ic : bool) (x : Z) (T U : list Z) (st : filter_state) :
  In x [9; 13; 11; 12] ->
  fold_left (filter_step ic) (T ++ 10 :: x :: 10 :: U) st
  = fold_left (filter_step ic) (T ++ 10 :: U) st.
Proof.
  intros Hx; rewrite !fold_left_app; cbn [fold_left].
  rewrite (filter_step_dropped _ _ _ Hx).
  rewrite (filter_step_after_nl ic _ (filter_step_nl_last _ _)); reflexivity.
Qed.

Lemma next_character_of_read (t1 t2 : list Z) (ic : bool) :
  read_text t1 = read_text t2 \/
  fold_left (filter_step ic) (read_text t1) (mkFS None None [])
  = fold_left (filter_step ic) (read_text t2) (mkFS None None []) ->
  next_character t1 ic = next_character t2 ic.
Proof.
  unfold next_character, filter_run; intros [H|H]; rewrite H; reflexivity.
Qed.

Lemma read_text_nl (r : list Z) : read_text (10 :: r) = 10 :: read_text r.
Proof. reflexivity. Qed.

Lemma last_cr_split (t : list Z) : last t 0 = 13 -> exists t', t = t' ++ [13].
Proof.
  intros H; destruct t as [|d r]; [discriminate H|].
  exists (removelast (d :: r)); rewrite <- H.
  apply app_removelast_last; discriminate.
Qed.

(** [random.choices] with positive normal weights whose exact sum is
    within one unit roundoff of 1 always picks a successor. *)
Lemma accumulate_from_length (acc : float) (l : list float) :
  List.length (accumulate_from acc l) = List.length l.
Proof. revert acc; induction l as [|x r IH]; intros acc; simpl; [|rewrite IH]; reflexivity. Qed.

Lemma accumulate_length (l : list float) : List.length (accumulate l) = List.length l.
Proof. destruct l as [|x r]; simpl; [|rewrite accumulate_from_length]; reflexivity. Qed.

Lemma accumulate_last (l : list float) :
  forall x, last_opt (x :: accumulate_from x l) = Some (fold_left fl_add l x).
Proof.
  induction l as [|y r IH]; intros x; [reflexivity|].
  cbn [accumulate_from fold_left].
  change (last_opt (x :: fl_add x y :: accumulate_from (fl_add x y) r))
    with (last_opt (fl_add x y :: accumulate_from (fl_add x y) r)).
  apply IH.
Qed.

Lemma bisect_fuel_le (f : nat) (a : list float) (x : float) :
  forall lo hi, (lo <= hi)%nat -> (bisect_fuel f a x lo hi <= hi)%nat.
Proof.
  induction f as [|f IH]; intros lo hi H; cbn [bisect_fuel]; [exact H|].
  destruct (lo <? hi)%nat eqn:Hlt; [|exact H].
  apply Nat.ltb_lt in Hlt.
  pose proof (Nat.div_mod (lo + hi) 2 ltac:(lia)) as Hd.
  pose proof (Nat.mod_upper_bound (lo + hi) 2 ltac:(lia)) as Hm.
  destruct (fl_lt _ _).
  - apply Nat.le_trans with ((lo + hi) / 2)%nat; [apply IH|]; lia.
  - apply IH; lia.
Qed.

Lemma Qplus_0_r_eq (s : Q) : (s + 0)%Q = s.
Proof.
  destruct s as [n d]; unfold Qplus; cbn [Qnum Qden].
  rewrite Z.mul_1_r, Z.add_0_r, Pos.mul_1_r; reflexivity.
Qed.

Lemma choices_ok (pop : list (list Z)) (qs : list Q) (g : rng) :
  List.length pop = List.length qs -> pop <> [] ->
  Forall (fun q => (pow2 (-1022) <= q)%Q) qs ->
  (Qabs (sumQ qs - 1) <= u53)%Q ->
  Z.of_nat (List.length qs) <= 1114113 ->
  exists x g', choices pop (map Fin qs) g = Ok (x, g').
Proof.
  intros Hlen Hne Hq Hsum Hn.
  destruct qs as [|q1 rest]; [destruct pop; [congruence | discriminate]|].
  inversion Hq as [|? ? Hq1 Hrest]; subst.
  pose proof u53_small as [U0 U1].
  pose proof pow2_m1022_pos as P0.
  apply Qabs_le_inv in Hsum; cbn [sumQ fold_right] in Hsum; fold (sumQ rest) in Hsum.
  assert (Hn' : (Qofnat (List.length rest) <= 1114112)%Q).
  { unfold Qofnat; change 1114112%Q with (inject_Z 1114112); rewrite <- Zle_Qle.
    cbn [List.length] in Hn; lia. }
  assert (Hnu : ((0 + 2 * Qofnat (List.length rest)) * u53 <= 1 # 1000)%Q).
  { apply Qle_trans with ((0 + 2 * 1114112) * u53)%Q.
    - apply Qmult_le_compat_r; [lra | lra].
    - unfold Qle; vm_compute; discriminate. }
  assert (HB : (1 + u53 <= 2)%Q) by lra.
  destruct (fl_fold_sum (1 + u53) HB rest Hrest q1 q1 0) as [s [Hfold [Hs0 [Hsl Herr]]]];
    try lra.
  { setoid_replace (q1 - q1)%Q with 0%Q by ring; simpl; lra. }
  specialize (Hsl Hq1); apply Qabs_le_inv in Herr.
  destruct (round64_pos_bounds s Hsl) as [R1 R2].
  assert (Hs3 : (s <= 3)%Q).
  { assert (((0 + 2 * Qofnat (List.length rest)) * u53 * (1 + u53) <= 1)%Q).
    { apply Qle_trans with ((1 # 1000) * 2)%Q; [|unfold Qle; vm_compute; discriminate].
      apply Qmult_le_compat_nonneg; split; try lra.
      unfold Qofnat; apply Qmult_le_0_compat; [|lra].
      apply Qplus_le_r with (-0)%Q; ring_simplify.
      apply Qmult_le_0_compat; [lra|].
      change 0%Q with (inject_Z 0); rewrite <- Zle_Qle; lia. }
    lra. }
  assert (Hr0 : (0 < round64 s)%Q).
  { apply Qlt_le_trans with (s * (1 - u53))%Q; [|exact R1].
    apply Qmult_lt_0_compat; lra. }
  assert (Hr16 : (round64 s <= 16)%Q).
  { apply Qle_trans with (s * (1 + u53))%Q; [exact R2|].
    apply Qle_trans with (3 * (1 + u53))%Q; [apply Qmult_le_compat_r; lra | lra]. }
  unfold choices; cbv zeta.
  rewrite accumulate_length, length_map, <- Hlen, Nat.eqb_refl; cbn [negb].
  change (accumulate (map Fin (q1 :: rest))) with (Fin q1 :: accumulate_from (Fin q1) (map Fin rest)).
  rewrite accumulate_last, Hfold; cbn [fl_add].
  rewrite Qplus_0_r_eq, (of_exact_fin s (Qlt_le_weak _ _ Hr0) Hr16); cbn [fl_le fl_isfinite negb].
  destruct (Qle_bool (round64 s) 0) eqn:E; [apply Qle_bool_iff in E; lra|].
  destruct (random_ g) as [r g'].
  destruct (nth_error pop _) as [x|] eqn:Hnth; [exists x, g'; reflexivity|].
  exfalso; apply nth_error_None in Hnth.
  unfold bisect_right in Hnth.
  pose proof (bisect_fuel_le (List.length pop - 1 - 0 + 1)
                (Fin q1 :: accumulate_from (Fin q1) (map Fin rest))
                (fl_mul (Fin r) (Fin (round64 s))) 0 (List.length pop - 1) ltac:(lia)) as Hb.
  destruct pop; [congruence|]; simpl in Hb, Hnth; lia.
Qed.

Lemma walk_total (a : automaton) (Inv : list Z -> Prop)
  (Hstep : forall st, Inv st -> exists succ probs,
     lookup st a = Some (succ, probs) /\
     (forall g, exists x g', choices succ probs g = Ok (x, g')) /\
     (forall x, In x succ -> Inv (tail_str st ++ x))) :
  forall k st g, Inv st -> exists r, walk k a st g = Ok r.
Proof.
  induction k as [|k IH]; intros st g Hs; simpl; [eexists; reflexivity|].
  destruct (Hstep st Hs) as [succ [probs [Hl [Hc Hx]]]].
  rewrite Hl; destruct (Hc g) as [x [g' Hcg]]; rewrite Hcg; cbn [bind].
  destruct (IH (tail_str st ++ x) g') as [[[rest st'] g''] Hw];
    [apply Hx; eapply choices_in; exact Hcg|].
  rewrite Hw; cbn [bind]; eexists; reflexivity.
Qed.

Lemma count_loop_some (l : list (list Z)) :
  forall a curr, exists c, count_loop a curr (map Some l) = Ok c.
Proof.
  induction l as [|v r IH]; intros a curr; simpl; [eexists; reflexivity|].
  apply IH.
Qed.

Lemma incr_succ_in (a : counts) (curr x k y : list Z) (m : list (list Z * nat)) :
  In (k, m) (incr a curr x) -> In y (map fst m) ->
  y = x \/ exists k0 m0, In (k0, m0) a /\ In y (map fst m0).
Proof.
  induction a as [|[k1 m1] r IH]; simpl.
  - intros [He|[]] Hy; injection He as <- <-; simpl in Hy.
    destruct Hy as [<-|[]]; left; reflexivity.
  - destruct (str_eqb k1 curr).
    + intros [He|Hin] Hy.
      * injection He as <- <-.
        apply incr_inner_keys_in in Hy as [Hy| ->]; [right; exists k1, m1; split; [left; reflexivity | exact Hy] | left; reflexivity].
      * right; exists k, m; split; [right; exact Hin | exact Hy].
    + intros [He|Hin] Hy.
      * injection He as <- <-; right; exists k1, m1; split; [left; reflexivity | exact Hy].
      * destruct (IH Hin Hy) as [Hx|[k0 [m0 [Hk0 Hm0]]]]; [left; exact Hx|].
        right; exists k0, m0; split; [right; exact Hk0 | exact Hm0].
Qed.

Lemma incr_closed (a : counts) (curr x : list Z) :
  succ_closed a curr -> succ_closed (incr a curr x) x.
Proof.
  intros Hs k m y Hk Hy.
  destruct (incr_succ_in _ _ _ _ _ _ Hk Hy) as [-> | [k0 [m0 [Hk0 Hm0]]]]; [right; reflexivity|].
  left; destruct (Hs _ _ _ Hk0 Hm0) as [Hin| ->];
    [apply incr_keys_keep, Hin | apply incr_keys_new].
Qed.

Lemma last_default {A} (l : list A) (d d' : A) : l <> [] -> last l d = last l d'.
Proof.
  induction l as [|x r IH]; intros H; [congruence|].
  destruct r as [|y r']; [reflexivity|].
  apply IH; discriminate.
Qed.

Lemma count_loop_closed (l : list (list Z)) :
  forall a curr c, Forall (fun v => List.length v = 1%nat) l ->
  List.length curr = 1%nat -> succ_closed a curr ->
  count_loop a curr (map Some l) = Ok c -> succ_closed c (last l curr).
Proof.
  induction l as [|v r IH]; simpl; intros a curr c Hl Hc Hs H.
  - injection H as <-; exact Hs.
  - inversion Hl as [|? ? Hv Hr]; subst.
    assert (Ht : tail_str curr ++ v = v)
      by (destruct curr as [|d [|d' r']]; simpl in Hc |- *; congruence).
    rewrite Ht in H.
    pose proof (IH _ _ _ Hr Hv (incr_closed a curr v Hs) H) as Hc'.
    destruct r as [|w r']; [exact Hc'|].
    rewrite (last_default (w :: r') curr v); [exact Hc' | discriminate].
Qed.

(** ** Further properties *)

(** X1: the characters [next_character] yields before its final value
    are never tab, newline, carriage return, vertical tab or form feed. *)
Theorem filter_output_no_control_whitespace (text : list Z) (ignore_case : bool) :
  Forall (fun c => mem c non_printable = false) (List.concat (filtered text ignore_case)).
Proof. apply forall_concat, filtered_printable. Qed.

(** X2: with [ignore_case] false, no character [next_character] yields
    before its final value is an upper-case ASCII letter. *)
Theorem filter_output_lowercase (text : list Z) :
  Forall (fun c => is_upper c = false) (List.concat (filtered text false)).
Proof.
  apply forall_concat, filtered_ok; [constructor; [reflexivity | constructor]|].
  intros c _ _; apply py_lower_not_upper.
Qed.

(** X3: on a text with none of tab, newline, carriage return, vertical
    tab and form feed, [next_character] yields every character of the
    text in order, as its [str.lower()] unless [ignore_case], before its
    final value. *)
Theorem filter_plain_text (text : list Z) (ignore_case : bool)
  (Hplain : Forall (fun c => mem c non_printable = false) text) :
  filtered text ignore_case = map (fun c => if ignore_case then [c] else py_lower c) text.
Proof.
  rewrite filtered_spec, read_text_id by (apply printable_no_cr, Hplain).
  apply filter_spec_plain, Hplain.
Qed.

Lemma filter_plain_text_witness :
  Forall (fun c => mem c non_printable = false) (of_ascii "Ab c") /\
  filtered (of_ascii "Ab c") false = [[97]; [98]; [32]; [99]].
Proof.
  assert (H : Forall (fun c => mem c non_printable = false) (of_ascii "Ab c"))
    by (repeat constructor).
  split; [exact H|].
  rewrite (filter_plain_text (of_ascii "Ab c") false H); vm_compute; reflexivity.
Defined.

(** X4: filtering is idempotent: the filter of [next_character], run on
    a file holding the characters it yielded, yields them back. *)
Theorem filter_idempotent (text : list Z) (ignore_case : bool) :
  List.concat (filtered (List.concat (filtered text ignore_case)) ignore_case)
  = List.concat (filtered text ignore_case).
Proof.
  pose proof (forall_concat _ _ (filtered_printable text ignore_case)) as Hp.
  rewrite (filtered_spec (List.concat _)), read_text_id by (apply printable_no_cr, Hp).
  unfold filter_spec; rewrite filter_spec_plain by exact Hp.
  apply concat_map_fixed, filtered_fixed.
Qed.

(** X5: [next_character] yields at most one value per character of the
    text, plus its final value. *)
Theorem next_character_length (text : list Z) (ignore_case : bool) :
  (List.length (next_character text ignore_case) <= S (List.length text))%nat.
Proof. apply next_character_length_le. Qed.

(** X6: the final value [next_character] yields is [None] exactly when
    it yielded nothing before it. *)
Theorem next_character_final_none (text : list Z) (ignore_case : bool) :
  last (next_character text ignore_case) (Some [32]) = None <->
  filtered text ignore_case = [].
Proof.
  rewrite next_character_last; unfold filtered, filter_run.
  apply (filter_first_none ignore_case _ (mkFS None None [])).
  split; reflexivity.
Qed.

(** X8: for an automaton [create_automaton] returns, [import_automaton]
    on what [save_automaton] writes gives the same contexts in the same
    order, each mapped to the list [[successors, probabilities]]. *)
Theorem built_automaton_save_load (order : Z) (text : list Z) (ignore_case : bool)
  (a : automaton) (Hbuilt : create_automaton order text ignore_case = Ok a) :
  import_automaton (save_automaton a) = automaton_as_loaded a.
Proof.
  destruct (create_automaton_counts _ _ _ _ Hbuilt) as [c [-> [_ [[Hnd _] _]]]].
  apply load_save_value; rewrite normalize_keys; exact Hnd.
Qed.

Lemma built_automaton_save_load_witness :
  create_automaton 1 (of_ascii "ab") false = Ok sample_automaton /\
  import_automaton (save_automaton sample_automaton) = automaton_as_loaded sample_automaton.
Proof.
  assert (H : create_automaton 1 (of_ascii "ab") false = Ok sample_automaton)
    by (vm_compute; reflexivity).
  split; [exact H | exact (built_automaton_save_load 1 (of_ascii "ab") false _ H)].
Defined.

(** X9: for [order >= 1], when [ignore_case] is set or the text has no
    U+0130, every context of an automaton [create_automaton] returns is
    a string of exactly [order] characters. *)
Theorem built_context_length (order : Z) (text : list Z) (ignore_case : bool)
  (a : automaton) (Horder : 1 <= order)
  (Hic : ignore_case = true \/ ~ In 304 text)
  (Hbuilt : create_automaton order text ignore_case = Ok a) :
  Forall (fun k => List.length k = Z.to_nat order) (map fst a).
Proof.
  destruct (create_automaton_inv _ _ _ _ Hbuilt) as [curr [rest [c [Hp [Hc ->]]]]].
  pose proof (stream_single text ignore_case Hic) as Hs.
  destruct (prime_length _ _ _ _ _ Hs Hp) as [Hl Hr]; simpl in Hl.
  rewrite normalize_keys, Forall_map.
  destruct (Z.to_nat order) as [|n] eqn:Ho; [lia|].
  exact (count_loop_key_length n rest [] curr c Hr Hl (Forall_nil _) Hc).
Qed.

Lemma built_context_length_witness :
  1 <= 2 /\ (false = true \/ ~ In 304 (of_ascii "aab")) /\
  create_automaton 2 (of_ascii "aab") false
  = Ok [([97; 97], ([[98]], [Fin 1])); ([97; 98], ([[97]], [Fin 1]))] /\
  Forall (fun k => List.length k = Z.to_nat 2)
    (map fst [([97; 97], ([[98]], [Fin 1])); ([97; 98], ([[97]], [Fin 1]))]).
Proof.
  assert (H1 : 1 <= 2) by lia.
  assert (H2 : false = true \/ ~ In 304 (of_ascii "aab")) by (right; simpl; lia).
  assert (H3 : create_automaton 2 (of_ascii "aab") false
               = Ok [([97; 97], ([[98]], [Fin 1])); ([97; 98], ([[97]], [Fin 1]))])
    by (vm_compute; reflexivity).
  split; [exact H1 | split; [exact H2 | split; [exact H3|]]].
  exact (built_context_length 2 (of_ascii "aab") false _ H1 H2 H3).
Defined.

(** X10: with [ignore_case] false, no context and no successor of an
    automaton [create_automaton] returns contains an upper-case ASCII
    letter. *)
Theorem built_automaton_lowercase (order : Z) (text : list Z) (a : automaton)
  (Hbuilt : create_automaton order text false = Ok a) :
  forall k succ probs, In (k, (succ, probs)) a ->
  Forall (fun c => is_upper c = false) k /\
  Forall (Forall (fun c => is_upper c = false)) succ.
Proof. exact (built_chars _ order text false a (stream_lower text) Hbuilt). Qed.

Lemma built_automaton_lowercase_witness :
  create_automaton 1 (of_ascii "Ab") false = Ok sample_automaton /\
  Forall (fun c => is_upper c = false) [97] /\
  Forall (Forall (fun c => is_upper c = false)) [[98]].
Proof.
  assert (H : create_automaton 1 (of_ascii "Ab") false = Ok sample_automaton)
    by (vm_compute; reflexivity).
  split; [exact H|].
  exact (built_automaton_lowercase 1 (of_ascii "Ab") _ H [97] [[98]] [Fin 1]
           (or_introl eq_refl)).
Defined.

(** X11: with [raw] set and [ignore_case] false, a string [generate]
    returns contains no upper-case ASCII letter. *)
Theorem generate_lowercase (mt_draws : Z -> nat -> Q) (length order : Z)
  (seed : option Z) (export : bool) (e : env) (s : list Z)
  (Hgen : generate mt_draws length order seed export true false e = Ok s) :
  Forall (fun c => is_upper c = false) s.
Proof. exact (generate_raw_chars _ _ _ _ _ _ _ _ _ (stream_lower (env_text e)) Hgen). Qed.

Lemma generate_lowercase_witness :
  generate (fun _ _ => 0%Q) 2 1 (Some 0) false true false
    (mkEnv (of_ascii "Ab") [] (fun _ => 0%Q)) = Ok [98; 97] /\
  Forall (fun c => is_upper c = false) [98; 97].
Proof.
  assert (H : generate (fun _ _ => 0%Q) 2 1 (Some 0) false true false
                (mkEnv (of_ascii "Ab") [] (fun _ => 0%Q)) = Ok [98; 97])
    by (vm_compute; reflexivity).
  split; [exact H | exact (generate_lowercase _ _ _ _ _ _ _ H)].
Defined.

(** X12: with [raw] set, every character of a string [generate] returns
    occurs in a value [next_character] yields on the same text. *)
Theorem generate_chars_from_filter (mt_draws : Z -> nat -> Q) (length order : Z)
  (seed : option Z) (export ignore_case : bool) (e : env) (s : list Z)
  (Hgen : generate mt_draws length order seed export true ignore_case e = Ok s) :
  forall c, In c s ->
  exists v, In (Some v) (next_character (env_text e) ignore_case) /\ In c v.
Proof.
  assert (Hs : stream_chars
    (fun c => exists v, In (Some v) (next_character (env_text e) ignore_case) /\ In c v)
    (next_character (env_text e) ignore_case)).
  { intros v Hv; rewrite Forall_forall; intros d Hd; exists v; split; assumption. }
  pose proof (generate_raw_chars _ _ _ _ _ _ _ _ _ Hs Hgen) as Hf.
  rewrite Forall_forall in Hf; exact Hf.
Qed.

Lemma generate_chars_from_filter_witness :
  generate (fun _ _ => 0%Q) 2 1 (Some 0) false true false
    (mkEnv (of_ascii "Ab") [] (fun _ => 0%Q)) = Ok [98; 97] /\
  In 98 [98; 97] /\
  exists v, In (Some v) (next_character (of_ascii "Ab") false) /\ In 98 v.
Proof.
  assert (H : generate (fun _ _ => 0%Q) 2 1 (Some 0) false true false
                (mkEnv (of_ascii "Ab") [] (fun _ => 0%Q)) = Ok [98; 97])
    by (vm_compute; reflexivity).
  assert (Hin : In 98 [98; 97]) by (left; reflexivity).
  split; [exact H | split; [exact Hin|]].
  exact (generate_chars_from_filter _ _ _ _ _ _ _ _ H 98 Hin).
Defined.

(** X13: with [raw] set and order 1, [generate] never fails, for any
    length and seed, when the text starts with a character other than
    tab, newline, carriage return, vertical tab and form feed, and
    [ignore_case] is set or the text has no U+0130: every successor is
    then a context, and every row of probabilities is accepted by
    [random.choices].  (Texts of code points, shorter than [2 ^ 1000].) *)
Theorem generate_order1_total (mt_draws : Z -> nat -> Q) (length : Z) (seed : option Z)
  (export ignore_case : bool) (e : env) (c : Z) (r : list Z)
  (Htext : env_text e = c :: r) (Hc : mem c non_printable = false)
  (Hic : ignore_case = true \/ ~ In 304 (env_text e))
  (Hchars : Forall (fun d => 0 <= d < 1114112) (env_text e))
  (Hlen : Z.of_nat (List.length (env_text e)) < 2 ^ 1000) :
  exists s, generate mt_draws length 1 seed export true ignore_case e = Ok s.
Proof.
  destruct (next_character_printable_start c r ignore_case Hc) as [ys Hn].
  set (c' := if ignore_case then [c] else py_lower c) in Hn.
  pose proof (stream_single (env_text e) ignore_case Hic) as Hs1.
  rewrite Htext, Hn in Hs1.
  assert (Hc1 : List.length c' = 1%nat) by (apply Hs1; left; reflexivity).
  assert (Hl : Forall (fun v => List.length v = 1%nat) (ys ++ [c'])).
  { rewrite Forall_forall; intros v Hv; apply Hs1; right; apply in_map, Hv. }
  assert (Hcnt : exists m r', count_loop [] c' (map Some (ys ++ [c'])) = Ok ((c', m) :: r')).
  { destruct ys as [|y0 ys']; simpl; [do 2 eexists; reflexivity|].
    apply count_loop_head. }
  destruct Hcnt as [m [r' Hcnt]].
  set (cnt := (c', m) :: r') in Hcnt.
  assert (Hbuilt : create_automaton 1 (env_text e) ignore_case = Ok (normalize_automaton cnt)).
  { unfold create_automaton; rewrite Htext, Hn.
    change (Z.to_nat 1) with 1%nat; cbn [prime app bind].
    rewrite Hcnt; reflexivity. }
  assert (Hhead : exists v a', normalize_automaton cnt = (c', v) :: a')
    by (do 2 eexists; reflexivity).
  destruct Hhead as [v [a' Hna]].
  (* every context has length 1 and every successor is a context *)
  assert (Hkeys : Forall (fun e => List.length (fst e) = 1%nat) cnt).
  { apply (count_loop_key_length 0 (map Some (ys ++ [c'])) [] c' cnt); try assumption.
    - exact (stream_pieces_app _ [Some c'] _ Hs1).
    - constructor. }
  assert (Hclosed : succ_closed cnt c').
  { pose proof (count_loop_closed (ys ++ [c']) [] c' cnt Hl Hc1) as H.
    rewrite last_last in H; apply H; [intros k0 m0 x0 []|exact Hcnt]. }
  assert (Hc'k : In c' (map fst cnt)) by (left; reflexivity).
  unfold generate; rewrite Hbuilt, Hna; cbn [bind].
  rewrite <- Hna.
  destruct (walk_total (normalize_automaton cnt) (fun st => In st (map fst cnt)))
    with (k := Z.to_nat length) (st := c') (g := seed_rng mt_draws seed e)
    as [[[res st] g''] Hw]; [| exact Hc'k |].
  - intros st Hst.
    rewrite <- normalize_keys in Hst.
    destruct (lookup_key _ _ Hst) as [[succ probs] Hlk].
    exists succ, probs; split; [exact Hlk|].
    pose proof (lookup_in _ _ _ Hlk) as Hin.
    destruct (built_entry_floats 1 (env_text e) ignore_case _ _ _ _ Hchars Hlen Hbuilt Hin)
      as [Hlen' [Hne [Hn' [qs [-> [Hq Hsum]]]]]].
    rewrite length_map in Hlen', Hn'.
    split.
    + intros g; apply choices_ok; assumption.
    + intros x Hx.
      rewrite normalize_keys in Hst.
      assert (Hst1 : List.length st = 1%nat).
      { apply in_map_iff in Hst as [[k0 m0] [<- Hk0]].
        rewrite Forall_forall in Hkeys; exact (Hkeys _ Hk0). }
      replace (tail_str st ++ x) with x
        by (destruct st as [|d [|d' r0]]; simpl in Hst1 |- *; congruence).
      destruct (normalize_in _ _ _ _ Hin) as [m0 [Hm0 [Hsucc _]]].
      rewrite Hsucc in Hx.
      destruct (Hclosed _ _ _ Hm0 Hx) as [Hk| ->]; [exact Hk | exact Hc'k].
  - rewrite Hw; cbn [bind]; eexists; reflexivity.
Qed.

Lemma generate_order1_total_witness :
  env_text (mkEnv (of_ascii "ab") [] (fun _ => 0%Q)) = 97 :: [98] /\
  mem 97 non_printable = false /\
  (false = true \/ ~ In 304 (env_text (mkEnv (of_ascii "ab") [] (fun _ => 0%Q)))) /\
  Forall (fun d => 0 <= d < 1114112) (env_text (mkEnv (of_ascii "ab") [] (fun _ => 0%Q))) /\
  Z.of_nat (List.length (env_text (mkEnv (of_ascii "ab") [] (fun _ => 0%Q)))) < 2 ^ 1000 /\
  exists s, generate (fun _ _ => 0%Q) 5 1 (Some 0) false true false
              (mkEnv (of_ascii "ab") [] (fun _ => 0%Q)) = Ok s.
Proof.
  set (e := mkEnv (of_ascii "ab") [] (fun _ => 0%Q)).
  assert (H1 : env_text e = 97 :: [98]) by reflexivity.
  assert (H2 : mem 97 non_printable = false) by (vm_compute; reflexivity).
  assert (H3 : false = true \/ ~ In 304 (env_text e)) by (right; simpl; lia).
  assert (H4 : Forall (fun d => 0 <= d < 1114112) (env_text e))
    by (apply Forall_forall; intros d Hd; simpl in Hd; lia).
  assert (H5 : Z.of_nat (List.length (env_text e)) < 2 ^ 1000) by (vm_compute; reflexivity).
  split; [exact H1 | split; [exact H2 | split; [exact H3 | split; [exact H4 | split; [exact H5|]]]]].
  exact (generate_order1_total _ 5 (Some 0) false false e 97 [98] H1 H2 H3 H4 H5).
Defined.

(** X14: for [order <= 0], whenever order 1 succeeds, [create_automaton]
    returns the order-1 automaton preceded by the context [""], whose
    only successor, with probability 1, is the first value of the
    stream. *)
Theorem create_automaton_order_nonpos (order : Z) (text : list Z) (ignore_case : bool)
  (a1 : automaton) (Horder : order <= 0)
  (H1 : create_automaton 1 text ignore_case = Ok a1) :
  exists s1, hd_error (next_character text ignore_case) = Some (Some s1) /\
  create_automaton order text ignore_case = Ok (([], ([s1], [Fin 1])) :: a1).
Proof.
  pose proof (stream_nonempty text ignore_case) as Hs.
  unfold create_automaton in *.
  replace (Z.to_nat order) with O by lia.
  change (Z.to_nat 1) with 1%nat in H1.
  destruct (next_character text ignore_case) as [|[s1|] rest];
    cbn [prime bind app] in H1 |- *;
    try discriminate.
  exists s1; split; [reflexivity|].
  destruct (count_loop [] s1 rest) as [c|err] eqn:Hc; cbn [bind] in H1; [|discriminate].
  injection H1 as <-.
  assert (Hs1 : s1 <> []) by (apply Hs; left; reflexivity).
  cbn [count_loop incr tail_str tl app].
  rewrite (count_loop_empty_key rest [] s1 c [(s1, 1%nat)]);
    [| intros w Hw; apply Hs; right; exact Hw | exact Hs1 | exact Hc].
  cbn [bind]; rewrite normalize_empty_key; reflexivity.
Qed.

Lemma create_automaton_order_nonpos_witness :
  0 <= 0 /\ create_automaton 1 (of_ascii "ab") false = Ok sample_automaton /\
  exists s1, hd_error (next_character (of_ascii "ab") false) = Some (Some s1) /\
  create_automaton 0 (of_ascii "ab") false = Ok (([], ([s1], [Fin 1])) :: sample_automaton).
Proof.
  assert (H0 : 0 <= 0) by lia.
  assert (H : create_automaton 1 (of_ascii "ab") false = Ok sample_automaton)
    by (vm_compute; reflexivity).
  split; [exact H0 | split; [exact H|]].
  exact (create_automaton_order_nonpos 0 (of_ascii "ab") false _ H0 H).
Defined.

(** X15: a newline directly after a newline is ignored, also after the
    translation of line ends: doubling a newline anywhere in the text
    leaves everything [next_character] yields unchanged. *)
Theorem next_character_double_newline (t u : list Z) (ignore_case : bool) :
  next_character (t ++ 10 :: 10 :: u) ignore_case = next_character (t ++ 10 :: u) ignore_case.
Proof.
  apply next_character_of_read; right.
  destruct (Z.eq_dec (last t 0) 13) as [Hl|Hl].
  - destruct (last_cr_split t Hl) as [t' ->].
    rewrite <- !app_assoc; cbn [app].
    rewrite !read_text_crlf, read_text_nl.
    apply fold_double_nl.
  - rewrite !read_text_app by (left; exact Hl).
    rewrite !read_text_nl; apply fold_double_nl.
Qed.

(** X16: tab, vertical tab and form feed have no effect at all: removing
    one from anywhere in the text leaves everything [next_character]
    yields unchanged; between a carriage return and a newline it splits
    one line end into two, and the second newline is then ignored. *)
Theorem next_character_ignores_dropped (t u : list Z) (x : Z) (ignore_case : bool)
  (Hx : In x [9; 11; 12]) :
  next_character (t ++ x :: u) ignore_case = next_character (t ++ u) ignore_case.
Proof.
  assert (Hx' : In x [9; 13; 11; 12])
    by (destruct Hx as [<-|[<-|[<-|[]]]]; simpl; tauto).
  assert (Hrx : read_text (x :: u) = x :: read_text u)
    by (destruct Hx as [<-|[<-|[<-|[]]]]; reflexivity).
  assert (Hxu : read_text (t ++ x :: u) = read_text t ++ x :: read_text u).
  { rewrite read_text_app, Hrx; [reflexivity|].
    right; destruct Hx as [<-|[<-|[<-|[]]]]; simpl; lia. }
  apply next_character_of_read; right; rewrite Hxu.
  destruct (Z.eq_dec (last t 0) 13) as [Hl|Hl];
    [destruct (Z.eq_dec (hd 0 u) 10) as [Hh|Hh]|].
  - destruct (last_cr_split t Hl) as [t' ->].
    destruct u as [|d u']; [discriminate Hh|]; cbn [hd] in Hh; subst d.
    rewrite read_text_app, read_text_nl by (right; discriminate).
    rewrite <- app_assoc; cbn [app read_text Z.eqb].
    rewrite <- app_assoc; cbn [app]; rewrite read_text_crlf.
    apply fold_nl_dropped_nl, Hx'.
  - rewrite read_text_app by (right; exact Hh); apply fold_dropped, Hx'.
  - rewrite read_text_app by (left; exact Hl); apply fold_dropped, Hx'.
Qed.

Lemma next_character_ignores_dropped_witness :
  In 9 [9; 11; 12] /\
  next_character ([97; 13] ++ 9 :: [10; 98]) false = next_character ([97; 13] ++ [10; 98]) false.
Proof.
  assert (H : In 9 [9; 11; 12]) by (left; reflexivity).
  split; [exact H | exact (next_character_ignores_dropped [97; 13] [10; 98] 9 false H)].
Defined.
